(** * Coverage data store (coverage/data.py)

    A shallow embedding of [CoverageData]: the in-memory line and arc maps,
    the pickled record written to and read from disk, the defensive decoder
    [_read_file], the parallel combine, and the queries.

    Python values are modelled by two types: [key], the hashable values that
    can be dictionary keys (None, integers, strings, tuples of keys), and
    [pyval], the values a pickle can hold (keys, lists, dictionaries).
    Dictionaries are [gmap]s, the "dictionary used as a set" idiom
    [{lineno: None, ...}] is a [gset].  Exceptions are explicit: a fallible
    step returns a [result]. *)

From Stdlib Require Import ZArith String Ascii List Sorting.Sorted.
From stdpp Require Import base option list sorting countable strings gmap fin_maps fin_sets.

#[local] Set Warnings "-register-all,-clear-no-such-hyp".

Local Open Scope Z_scope.
Local Open Scope string_scope.

(** ** Python values *)

(** Hashable values: what can be a key of a dict. *)
Inductive key : Type :=
  | KNone : key
  | KInt (z : Z) : key
  | KStr (s : string) : key
  | KTuple (xs : list key) : key.

(** Induction over [key] that also covers the elements of a tuple. *)
Fixpoint key_ind' (P : key → Prop)
    (HNone : P KNone)
    (HInt : ∀ z, P (KInt z))
    (HStr : ∀ s, P (KStr s))
    (HTuple : ∀ xs, Forall P xs → P (KTuple xs))
    (k : key) {struct k} : P k :=
  match k with
  | KNone => HNone
  | KInt z => HInt z
  | KStr s => HStr s
  | KTuple xs =>
      HTuple xs
        ((fix go (l : list key) : Forall P l :=
            match l with
            | [] => @List.Forall_nil key P
            | x :: l' =>
                @List.Forall_cons key P x l' (key_ind' P HNone HInt HStr HTuple x) (go l')
            end) xs)
  end.

Fixpoint key_enc (k : key) : gen_tree (Z + string) :=
  match k with
  | KNone => GenNode 0 []
  | KInt z => GenLeaf (inl z)
  | KStr s => GenLeaf (inr s)
  | KTuple xs => GenNode 1 (map key_enc xs)
  end.

Fixpoint key_dec (t : gen_tree (Z + string)) : key :=
  match t with
  | GenLeaf (inl z) => KInt z
  | GenLeaf (inr s) => KStr s
  | GenNode 0%nat _ => KNone
  | GenNode _ ts => KTuple (map key_dec ts)
  end.

Lemma key_dec_enc (k : key) : key_dec (key_enc k) = k.
Proof.
  induction k as [| z | s | xs IH] using key_ind'; simpl; try reflexivity.
  f_equal. induction IH as [| x l Hx _ IHl]; simpl; [reflexivity |].
  now rewrite Hx, IHl.
Qed.

#[global] Instance key_eq_dec : EqDecision key.
Proof.
  refine (fix go (a b : key) {struct a} : Decision (a = b) :=
    match a, b with
    | KNone, KNone => left _
    | KInt x, KInt y => cast_if (decide (x = y))
    | KStr s, KStr t => cast_if (decide (s = t))
    | KTuple xs, KTuple ys =>
        cast_if ((fix gol (l1 l2 : list key) {struct l1} : Decision (l1 = l2) :=
                    match l1, l2 with
                    | [], [] => left _
                    | x :: l1', y :: l2' =>
                        cast_if_and (go x y) (gol l1' l2')
                    | _, _ => right _
                    end) xs ys)
    | _, _ => right _
    end); clear go; try clear gol; congruence.
Defined.

#[global] Instance key_countable : Countable key :=
  inj_countable' key_enc key_dec key_dec_enc.

(** Values held by a pickle.  A tuple holding a list is a value but not a
    key; [to_key] below makes the distinction. *)
Inductive pyval : Type :=
  | VNone : pyval
  | VInt (z : Z) : pyval
  | VStr (s : string) : pyval
  | VTuple (xs : list pyval) : pyval
  | VList (xs : list pyval) : pyval
  | VDict (d : gmap key pyval) : pyval.

(** A key seen as a value. *)
Fixpoint of_key (k : key) : pyval :=
  match k with
  | KNone => VNone
  | KInt z => VInt z
  | KStr s => VStr s
  | KTuple xs => VTuple (map of_key xs)
  end.

(** [hash(v)]: the key a value stands for, [None] when Python raises
    [TypeError: unhashable type] (lists, dicts, tuples holding one). *)
Fixpoint to_key (v : pyval) : option key :=
  match v with
  | VNone => Some KNone
  | VInt z => Some (KInt z)
  | VStr s => Some (KStr s)
  | VTuple xs => KTuple <$> mapM to_key xs
  | VList _ | VDict _ => None
  end.

Lemma to_key_of_key (k : key) : to_key (of_key k) = Some k.
Proof.
  induction k as [| z | s | xs IH] using key_ind'; simpl; try reflexivity.
  replace (mapM to_key (map of_key xs)) with (Some xs); [reflexivity |].
  symmetry. apply mapM_Some_2. induction IH; simpl; constructor; auto.
Qed.

(** ** Ordering of keys, and [sorted] *)

(** Lexicographic comparison of two sequences, as Python compares tuples:
    the first differing position decides, a proper prefix is smaller. *)
Definition lex_cmp {A} (c : A → A → comparison) : list A → list A → comparison :=
  fix go (xs ys : list A) {struct xs} : comparison :=
    match xs, ys with
    | [], [] => Eq
    | [], _ :: _ => Lt
    | _ :: _, [] => Gt
    | x :: xs', y :: ys' =>
        match c x y with
        | Eq => go xs' ys'
        | ne => ne
        end
    end.

(** The order [sorted] uses on keys.  Integers compare numerically, strings
    and tuples lexicographically; values of different kinds compare as
    Python 2 orders them: None first, then numbers, then the other kinds by
    type name (str before tuple). *)
Fixpoint key_cmp (a b : key) {struct a} : comparison :=
  match a, b with
  | KNone, KNone => Eq
  | KNone, _ => Lt
  | _, KNone => Gt
  | KInt x, KInt y => Z.compare x y
  | KInt _, _ => Lt
  | _, KInt _ => Gt
  | KStr s, KStr t => String.compare s t
  | KStr _, _ => Lt
  | _, KStr _ => Gt
  | KTuple xs, KTuple ys => lex_cmp key_cmp xs ys
  end.

Definition key_le (a b : key) : Prop := key_cmp a b ≠ Gt.
Definition key_lt (a b : key) : Prop := key_cmp a b = Lt.

#[global] Instance key_le_dec (a b : key) : Decision (key_le a b).
Proof.
  unfold key_le. destruct (key_cmp a b); [left | left | right]; congruence.
Defined.

(** Modelled from the spec: [sorted] is imported from [coverage.backward],
    which is not part of the sources at hand; the spec calls its result the
    sorted sequence (line numbers ascending, pairs lexicographic on
    (first, second)).  It is the ascending arrangement of its argument. *)
Definition sorted (l : list key) : list key := merge_sort key_le l.

(** ** Exceptions *)

Inductive exn : Type :=
  | IOError | OSError | UnpicklingError | AttributeError | TypeError.

Inductive result (A : Type) : Type :=
  | Ok (a : A)
  | Raise (e : exn).
Arguments Ok {A} a.
Arguments Raise {A} e.

#[global] Instance result_ret : MRet result := λ A a, Ok a.
#[global] Instance result_bind : MBind result := λ A B f m,
  match m with
  | Ok a => f a
  | Raise e => Raise e
  end.

(** A loop whose body can raise: the first exception ends it. *)
Fixpoint for_each {A S} (body : S → A → result S) (l : list A) (s : S) : result S :=
  match l with
  | [] => Ok s
  | x :: l' => s' ← body s x; for_each body l' s'
  end.

(** A list comprehension whose element expression can raise. *)
Fixpoint comprehension {A B} (f : A → result B) (l : list A) : result (list B) :=
  match l with
  | [] => Ok []
  | x :: l' => y ← f x; ys ← comprehension f l'; Ok (y :: ys)
  end.

(** ** Dictionaries *)

(** [dict(pairs)]: later pairs win over earlier ones with the same key. *)
Definition py_dict {V} (pairs : list (key * V)) : gmap key V :=
  foldl (λ m kv, <[kv.1 := kv.2]> m) ∅ pairs.

(** Truth value of a dict: true when it has at least one item. *)
Definition dict_truthy {V} (d : gmap key V) : bool :=
  match map_to_list d with
  | [] => false
  | _ :: _ => true
  end.

(** Truth value of an optional string: None and the empty string are false. *)
Definition str_truthy (s : option string) : bool :=
  match s with
  | Some (String _ _) => true
  | _ => false
  end.

(** [target.setdefault(k, {}).update(d)] for every [(k, d)] of [items]:
    the loop body shared by [add_line_data], [add_arc_data] and
    [combine_parallel_data]. *)
Definition setdefault_update (target : gmap key (gset key)) (k : key) (d : gset key)
    : gmap key (gset key) :=
  <[k := default ∅ (target !! k) ∪ d]> target.

Definition update_all (target : gmap key (gset key)) (items : list (key * gset key))
    : gmap key (gset key) :=
  foldl (λ m kd, setdefault_update m kd.1 kd.2) target items.

(** ** The file system and [os.path] (POSIX flavour) *)

(** What a regular file holds, as far as [pickle.load] can tell. *)
Inductive content : Type :=
  | Garbled                (* bytes that do not unpickle: truncated, corrupt *)
  | Pickle (v : pyval).    (* the pickle of [v] *)

Inductive node : Type :=
  | Dir (names : list string)   (* a directory and its [os.listdir] order *)
  | File (c : content).

(** Paths are the strings the program uses; a path bound to nothing does
    not exist. *)
Abbreviation filesystem := (gmap string node).

(** Modelled from the spec: [pickle] is imported from [coverage.backward],
    which is not part of the sources at hand; the spec has a record written
    as a single serialized structured record and read back as the same
    record, anything else failing to deserialize. *)
Definition pickle_dump (v : pyval) : content := Pickle v.

Definition pickle_load (c : content) : result pyval :=
  match c with
  | Pickle v => Ok v
  | Garbled => Raise UnpicklingError
  end.

Definition open_rb (fs : filesystem) (path : string) : result content :=
  match fs !! path with
  | Some (File c) => Ok c
  | Some (Dir _) | None => Raise IOError
  end.

Definition os_path_exists (fs : filesystem) (path : string) : bool :=
  bool_decide (is_Some (fs !! path)).

Definition os_remove (fs : filesystem) (path : string) : result filesystem :=
  match fs !! path with
  | Some (File _) => Ok (delete path fs)
  | Some (Dir _) | None => Raise OSError
  end.

Definition os_listdir (fs : filesystem) (path : string) : result (list string) :=
  match fs !! path with
  | Some (Dir names) => Ok names
  | Some (File _) | None => Raise OSError
  end.

Definition is_slash (c : ascii) : bool := Ascii.eqb c "/"%char.

(** [(p[:i], p[i:])] for [i = p.rfind('/') + 1]. *)
Fixpoint rsplit_slash (p : string) : string * string :=
  match p with
  | EmptyString => (EmptyString, EmptyString)
  | String c p' =>
      match rsplit_slash p' with
      | (EmptyString, _) =>
          if is_slash c then (String c EmptyString, p') else (EmptyString, String c p')
      | (h, t) => (String c h, t)
      end
  end.

Fixpoint all_slashes (s : string) : bool :=
  match s with
  | EmptyString => true
  | String c s' => is_slash c && all_slashes s'
  end.

(** [s.rstrip('/')] *)
Fixpoint rstrip_slash (s : string) : string :=
  match s with
  | EmptyString => EmptyString
  | String c s' =>
      match rstrip_slash s' with
      | EmptyString => if is_slash c then EmptyString else String c EmptyString
      | r => String c r
      end
  end.

Definition os_path_split (p : string) : string * string :=
  let '(head, tail) := rsplit_slash p in
  let head :=
    if negb (String.eqb head EmptyString) && negb (all_slashes head)
    then rstrip_slash head else head in
  (head, tail).

Definition os_path_basename (p : string) : string := (rsplit_slash p).2.

Fixpoint ends_with_slash (s : string) : bool :=
  match s with
  | EmptyString => false
  | String c EmptyString => is_slash c
  | String _ s' => ends_with_slash s'
  end.

Definition os_path_join (a b : string) : string :=
  if String.prefix "/" b then b
  else if String.eqb a EmptyString || ends_with_slash a then a ++ b
  else a ++ "/" ++ b.

(** The directory a path lives in and its name there: [os.path.split],
    with the current directory for an empty head. *)
Definition parent_dir (path : string) : string :=
  let head := (os_path_split path).1 in
  if String.eqb head EmptyString then "." else head.

Definition entry_name (path : string) : string := (os_path_split path).2.

(** [open(path, 'wb')] followed by writing [c] and closing.  A directory
    cannot be opened for writing; an existing file is truncated in place; a
    new file needs a name and an existing directory to live in, whose
    listing gains the name. *)
Definition open_wb_write (fs : filesystem) (path : string) (c : content)
    : result filesystem :=
  match fs !! path with
  | Some (Dir _) => Raise IOError
  | Some (File _) => Ok (<[path := File c]> fs)
  | None =>
      match fs !! parent_dir path with
      | Some (Dir names) =>
          if String.eqb (entry_name path) EmptyString then Raise IOError
          else
            let names' :=
              if bool_decide (entry_name path ∈ names) then names
              else (names ++ [entry_name path])%list in
            Ok (<[path := File c]> (<[parent_dir path := Dir names']> fs))
      | Some (File _) | None => Raise IOError
      end
  end.

(** ** CoverageData *)

Record CoverageData : Type := mkCoverageData {
  collector : option string;
  use_file : bool;
  filename : string;
  lines : gmap key (gset key);    (* file -> { lineno: None, ... } *)
  arcs : gmap key (gset key);     (* file -> { (l1, l2): None, ... } *)
}.

Definition filename_default : string := ".coverage".
Definition filename_env : string := "COVERAGE_FILE".

Definition set_lines_arcs (self : CoverageData)
    (new_lines new_arcs : gmap key (gset key)) : CoverageData :=
  mkCoverageData (collector self) (use_file self) (filename self) new_lines new_arcs.

Definition set_lines (self : CoverageData) (new_lines : gmap key (gset key))
    : CoverageData :=
  set_lines_arcs self new_lines (arcs self).

Definition set_arcs (self : CoverageData) (new_arcs : gmap key (gset key))
    : CoverageData :=
  set_lines_arcs self (lines self) new_arcs.

(** [__init__]; [abspath] and [environ] are [os.path.abspath] and
    [os.environ] at the time of the call. *)
Definition init (abspath : string → string) (environ : gmap string string)
    (basename suffix collector : option string) : CoverageData :=
  let name :=
    if str_truthy basename then default EmptyString basename
    else default filename_default (environ !! filename_env) in
  let name := if str_truthy suffix then name ++ default EmptyString suffix else name in
  mkCoverageData collector true (abspath name) ∅ ∅.

Definition usefile (self : CoverageData) (flag : bool) : CoverageData :=
  mkCoverageData (collector self) flag (filename self) (lines self) (arcs self).

(** [line_data] and [arc_data]: file -> sorted list of the keys of its map. *)
Definition line_data (self : CoverageData) : gmap key (list key) :=
  py_dict (map (λ fl, (fl.1, sorted (elements fl.2))) (map_to_list (lines self))).

Definition arc_data (self : CoverageData) : gmap key (list key) :=
  py_dict (map (λ fa, (fa.1, sorted (elements fa.2))) (map_to_list (arcs self))).

(** The value pickled for a [file -> list] dict. *)
Definition dict_of_lists (m : gmap key (list key)) : pyval :=
  VDict ((λ l, VList (map of_key l)) <$> m).

(** The dict [data] that [write_file] builds. *)
Definition file_data (self : CoverageData) : gmap key pyval :=
  let data : gmap key pyval := ∅ in
  let data := <[KStr "lines" := dict_of_lists (line_data self)]> data in
  let arcs := arc_data self in
  let data := if dict_truthy arcs then <[KStr "arcs" := dict_of_lists arcs]> data else data in
  let data :=
    if str_truthy (collector self)
    then <[KStr "collector" := VStr (default EmptyString (collector self))]> data
    else data in
  data.

Definition write_file (fs : filesystem) (self : CoverageData) (fname : string)
    : result filesystem :=
  open_wb_write fs fname (pickle_dump (VDict (file_data self))).

Definition raw_data (fs : filesystem) (fname : string) : result pyval :=
  fdata ← open_rb fs fname;
  pickle_load fdata.

(** [v.items()]: only a dict has the method. *)
Definition py_items (v : pyval) : result (list (key * pyval)) :=
  match v with
  | VDict d => Ok (map_to_list d)
  | _ => Raise AttributeError
  end.

(** [iter(v)]: the elements of a list or tuple, the characters of a string,
    the keys of a dict; None and integers are not iterable. *)
Definition py_iter (v : pyval) : result (list pyval) :=
  match v with
  | VList xs | VTuple xs => Ok xs
  | VStr s => Ok (map (λ c, VStr (String c EmptyString)) (list_ascii_of_string s))
  | VDict d => Ok (map (λ kv, of_key kv.1) (map_to_list d))
  | VNone | VInt _ => Raise TypeError
  end.

Definition py_hash (v : pyval) : result key :=
  match to_key v with
  | Some k => Ok k
  | None => Raise TypeError
  end.

(** [dict.fromkeys(v, None)] *)
Definition dict_fromkeys (v : pyval) : result (gset key) :=
  xs ← py_iter v;
  ks ← comprehension py_hash xs;
  Ok (list_to_set ks).

(** [dict([(f, dict.fromkeys(seq, None)) for f, seq in item.items()])] *)
Definition unpack_item (item : pyval) : result (gmap key (gset key)) :=
  its ← py_items item;
  pairs ← comprehension (λ fseq, d ← dict_fromkeys fseq.2; Ok (fseq.1, d)) its;
  Ok (py_dict pairs).

(** [d.get(k, {})] *)
Definition dict_get_or_empty (d : gmap key pyval) (k : string) : pyval :=
  default (VDict ∅) (d !! KStr k).

(** [_read_file]: [lines] and [arcs] start empty; each is assigned once its
    item has been unpacked, and any exception ends the [try] block with
    what has been assigned so far. *)
Definition _read_file (fs : filesystem) (fname : string)
    : gmap key (gset key) * gmap key (gset key) :=
  let lines0 : gmap key (gset key) := ∅ in
  let arcs0 : gmap key (gset key) := ∅ in
  match raw_data fs fname with
  | Raise _ => (lines0, arcs0)
  | Ok (VDict data) =>
      match unpack_item (dict_get_or_empty data "lines") with
      | Raise _ => (lines0, arcs0)
      | Ok lines1 =>
          match unpack_item (dict_get_or_empty data "arcs") with
          | Raise _ => (lines1, arcs0)
          | Ok arcs1 => (lines1, arcs1)
          end
      end
  | Ok _ => (lines0, arcs0)
  end.

Definition read_file (fs : filesystem) (self : CoverageData) (fname : string)
    : CoverageData :=
  let '(l, a) := _read_file fs fname in set_lines_arcs self l a.

Definition read (fs : filesystem) (self : CoverageData) : CoverageData :=
  if use_file self then read_file fs self (filename self)
  else set_lines_arcs self ∅ ∅.

Definition write (fs : filesystem) (self : CoverageData) : result filesystem :=
  if use_file self then write_file fs self (filename self) else Ok fs.

(** [erase]: the file goes first, the in-memory maps after; an exception
    of [os.remove] leaves before the maps are reset. *)
Definition erase (fs : filesystem) (self : CoverageData)
    : result (filesystem * CoverageData) :=
  fs' ← (if use_file self then
           if negb (String.eqb (filename self) EmptyString)
              && os_path_exists fs (filename self)
           then os_remove fs (filename self)
           else Ok fs
         else Ok fs);
  Ok (fs', set_lines_arcs self ∅ ∅).

(** The body of the [for f in os.listdir(...)] loop of
    [combine_parallel_data], on the line map. *)
Definition combine_entry (fs : filesystem) (data_dir local : string)
    (acc : gmap key (gset key)) (f : string) : gmap key (gset key) :=
  if String.prefix local f then
    let full_path := os_path_join data_dir f in
    let '(new_lines, new_arcs) := _read_file fs full_path in
    update_all acc (map_to_list new_lines)
  else acc.

Definition combine_entries (fs : filesystem) (data_dir local : string)
    (names : list string) (acc : gmap key (gset key)) : gmap key (gset key) :=
  foldl (combine_entry fs data_dir local) acc names.

Definition combine_parallel_data (fs : filesystem) (self : CoverageData)
    : result CoverageData :=
  let '(data_dir, local) := os_path_split (filename self) in
  names ← os_listdir fs (if String.eqb data_dir EmptyString then "." else data_dir);
  Ok (set_lines self (combine_entries fs data_dir local names (lines self))).

Definition add_line_data (self : CoverageData) (line_data : gmap key (gset key))
    : CoverageData :=
  set_lines self (update_all (lines self) (map_to_list line_data)).

Definition add_arc_data (self : CoverageData) (arc_data : gmap key (gset key))
    : CoverageData :=
  set_arcs self (update_all (arcs self) (map_to_list arc_data)).

(** [executed_files]: the keys of the line map, as a list.  The list comes
    in the order of the map; the properties below use it as a collection
    (membership, emptiness, length), never for its order. *)
Definition executed_files (self : CoverageData) : list key :=
  (map_to_list (lines self)).*1.

Definition executed_lines (self : CoverageData) (fname : key) : gset key :=
  default ∅ (lines self !! fname).

Definition executed_arcs (self : CoverageData) (fname : key) : gset key :=
  default ∅ (arcs self !! fname).

(** [filename_fn]: the identity, or [os.path.basename], which takes a
    string and raises TypeError on anything else. *)
Definition filename_fn (fullpath : bool) (f : key) : result key :=
  if fullpath then Ok f
  else match f with
       | KStr p => Ok (KStr (os_path_basename p))
       | _ => Raise TypeError
       end.

(** The loop of [summary] over a given sequence of items. *)
Definition summary_loop (fullpath : bool) (items : list (key * gset key))
    (summ : gmap key nat) : result (gmap key nat) :=
  for_each (λ summ fl, k ← filename_fn fullpath fl.1; Ok (<[k := size fl.2]> summ))
           items summ.

(** [d.items()] for a dict that yields its keys in the order [order]. *)
Definition dict_items {V} (order : list key) (d : gmap key V) : list (key * V) :=
  omap (λ k, (λ v, (k, v)) <$> d !! k) order.

(** [order] is an order in which the dict [d] can yield its keys: each key
    once and nothing else.  Which one it is (the order of insertion on a
    current interpreter) is not part of the value of the dict. *)
Definition iteration_order {V} (order : list key) (d : gmap key V) : Prop :=
  NoDup order ∧ ∀ k, k ∈ order ↔ is_Some (d !! k).

(** [summary], for a line map that yields its keys in the order [order]. *)
Definition summary (self : CoverageData) (fullpath : bool) (order : list key)
    : result (gmap key nat) :=
  summary_loop fullpath (dict_items order (lines self)) ∅.

(** ** Small checks of the model on concrete data *)

Definition ints (l : list Z) : gset key := list_to_set (map KInt l).
Definition arc (a b : Z) : key := KTuple [KInt a; KInt b].
Definition fresh (fname : string) : CoverageData := mkCoverageData None true fname ∅ ∅.

Example split_example :
  os_path_split "/tmp/run/.coverage" = ("/tmp/run", ".coverage")
  ∧ os_path_split "/cov" = ("/", "cov")
  ∧ os_path_split "cov" = ("", "cov")
  ∧ os_path_join "/tmp/run" ".coverage.1" = "/tmp/run/.coverage.1"
  ∧ os_path_join "/" "cov.1" = "/cov.1"
  ∧ os_path_basename "/x/mod.py" = "mod.py".
Proof. repeat split; reflexivity. Qed.

Example sorted_example :
  sorted [KInt 3; KInt 1; KInt 2] = [KInt 1; KInt 2; KInt 3]
  ∧ sorted [arc 2 1; arc 1 5; arc 1 2] = [arc 1 2; arc 1 5; arc 2 1].
Proof. split; vm_compute; reflexivity. Qed.

(** * Properties *)

(** ** Dictionaries built from item lists *)

Section py_dict_facts.
  Context {V : Type}.
  Implicit Types (l : list (key * V)) (m : gmap key V).

Lemma foldl_insert_nodup l m :
    NoDup l.*1 →
    foldl (λ acc kv, <[kv.1 := kv.2]> acc) m l = list_to_map l ∪ m.
  Proof.
    revert m. induction l as [| [k v] l IH]; intros m Hnd; simpl.
    - by rewrite (left_id_L ∅ (∪)).
    - apply NoDup_cons in Hnd as [Hk Hnd]. rewrite IH by done.
      apply map_eq; intros i. rewrite !lookup_union.
      destruct (decide (k = i)) as [-> | Hne].
      + rewrite !lookup_insert_eq.
        rewrite (not_elem_of_list_to_map_1 l i Hk).
        by destruct (m !! i).
      + by rewrite !lookup_insert_ne.
  Qed.

Lemma py_dict_nodup l : NoDup l.*1 → py_dict l = list_to_map l.
  Proof.
    intros Hnd. unfold py_dict. rewrite foldl_insert_nodup by done.
    by rewrite (right_id_L ∅ (∪)).
  Qed.

Lemma py_dict_items m : py_dict (map_to_list m) = m.
  Proof.
    rewrite py_dict_nodup by apply NoDup_fst_map_to_list.
    apply list_to_map_to_list.
  Qed.
End py_dict_facts.

Lemma py_dict_map_items {A B} (f : A → B) (m : gmap key A) :
  py_dict (map (λ kv, (kv.1, f kv.2)) (map_to_list m)) = f <$> m.
Proof.
  rewrite py_dict_nodup.
  - rewrite <- (list_to_map_to_list m) at 2. rewrite <- list_to_map_fmap.
    reflexivity.
  - replace ((map (λ kv, (kv.1, f kv.2)) (map_to_list m)).*1)
      with ((map_to_list m).*1); [apply NoDup_fst_map_to_list |].
    generalize (map_to_list m). intros l. induction l; csimpl; by f_equal.
Qed.

Lemma dict_truthy_spec {V} (d : gmap key V) : dict_truthy d = true ↔ d ≠ ∅.
Proof.
  unfold dict_truthy. destruct (map_to_list d) eqn:E.
  - apply map_to_list_empty_iff in E. split; [done | congruence].
  - split; [| done]. intros _ ->. by rewrite map_to_list_empty in E.
Qed.

(** ** The merge behind [setdefault(...).update(...)] *)

(** Key-wise union of two [file -> set] maps. *)
Definition merge_sets (m d : gmap key (gset key)) : gmap key (gset key) :=
  union_with (λ a b, Some (a ∪ b)) m d.

Lemma lookup_merge_sets m d k :
  merge_sets m d !! k = union_with (λ a b, Some (a ∪ b)) (m !! k) (d !! k).
Proof. apply lookup_union_with. Qed.

Ltac merge_sets_eq :=
  apply map_eq; intros ?i; rewrite ?lookup_merge_sets;
  repeat match goal with
         | |- context [?m !! ?i] =>
             is_var m; let o := fresh "o" in
             generalize (m !! i); intros o; destruct o
         end;
  simpl; try reflexivity; f_equal; set_solver.

Lemma merge_sets_comm m d : merge_sets m d = merge_sets d m.
Proof. merge_sets_eq. Qed.

Lemma merge_sets_assoc m d e :
  merge_sets (merge_sets m d) e = merge_sets m (merge_sets d e).
Proof. merge_sets_eq. Qed.

Lemma merge_sets_idemp m : merge_sets m m = m.
Proof. merge_sets_eq. Qed.

Lemma merge_sets_empty_r m : merge_sets m ∅ = m.
Proof.
  apply map_eq; intros i. rewrite lookup_merge_sets, lookup_empty.
  by destruct (m !! i).
Qed.

Lemma merge_sets_empty_l m : merge_sets ∅ m = m.
Proof. by rewrite merge_sets_comm, merge_sets_empty_r. Qed.

Lemma merge_sets_absorb m d : merge_sets (merge_sets m d) d = merge_sets m d.
Proof. by rewrite merge_sets_assoc, merge_sets_idemp. Qed.

Lemma setdefault_update_merge m k d :
  setdefault_update m k d = merge_sets m {[k := d]}.
Proof.
  apply map_eq; intros i. unfold setdefault_update.
  rewrite lookup_merge_sets. destruct (decide (k = i)) as [-> | Hne].
  - rewrite lookup_insert_eq, lookup_singleton_eq.
    destruct (m !! i); simpl; f_equal; set_solver.
  - rewrite lookup_insert_ne, lookup_singleton_ne by done.
    by destruct (m !! i).
Qed.

Lemma update_all_list m (l : list (key * gset key)) :
  NoDup l.*1 → update_all m l = merge_sets m (list_to_map l).
Proof.
  revert m. induction l as [| [k d] l IH]; intros m Hnd; simpl.
  - by rewrite merge_sets_empty_r.
  - apply NoDup_cons in Hnd as [Hk Hnd]. unfold update_all in *. simpl.
    rewrite IH by done. rewrite setdefault_update_merge, merge_sets_assoc.
    f_equal. apply map_eq; intros i. rewrite lookup_merge_sets.
    destruct (decide (k = i)) as [-> | Hne].
    + rewrite lookup_insert_eq, lookup_singleton_eq.
      by rewrite (not_elem_of_list_to_map_1 l i Hk).
    + rewrite lookup_insert_ne, lookup_singleton_ne by done.
      by destruct (list_to_map l !! i).
Qed.

Lemma update_all_merge m d : update_all m (map_to_list d) = merge_sets m d.
Proof.
  rewrite update_all_list by apply NoDup_fst_map_to_list.
  by rewrite list_to_map_to_list.
Qed.

(** ** The order on keys is a total order *)

Section lex_cmp_facts.
  Context {A : Type} (c : A → A → comparison).

Lemma lex_cmp_refl xs : Forall (λ x, c x x = Eq) xs → lex_cmp c xs xs = Eq.
  Proof. induction 1 as [| x xs Hx _ IH]; simpl; [done |]. by rewrite Hx. Qed.

Lemma lex_cmp_eq xs ys :
    Forall (λ x, ∀ y, c x y = Eq → x = y) xs → lex_cmp c xs ys = Eq → xs = ys.
  Proof.
    intros H. revert ys. induction H as [| x xs Hx _ IH]; intros [| y ys]; simpl;
      try done.
    destruct (c x y) eqn:E; try done. intros Hl. f_equal; auto.
  Qed.

Lemma lex_cmp_antisym xs ys :
    Forall (λ x, ∀ y, c y x = CompOpp (c x y)) xs →
    lex_cmp c ys xs = CompOpp (lex_cmp c xs ys).
  Proof.
    intros H. revert ys. induction H as [| x xs Hx _ IH]; intros [| y ys]; simpl;
      try done.
    rewrite Hx. destruct (c x y); simpl; auto.
  Qed.

Lemma lex_cmp_trans xs ys zs :
    (∀ x y, c x y = Eq → x = y) →
    Forall (λ x, ∀ y z, c x y = Lt → c y z = Lt → c x z = Lt) xs →
    lex_cmp c xs ys = Lt → lex_cmp c ys zs = Lt → lex_cmp c xs zs = Lt.
  Proof.
    intros Heq H. revert ys zs.
    induction H as [| x xs Hx _ IH]; intros [| y ys] [| z zs]; simpl; try done.
    destruct (c x y) eqn:Exy; try done.
    - apply Heq in Exy as ->. destruct (c y z); try done. apply IH.
    - destruct (c y z) eqn:Eyz; try done.
      + apply Heq in Eyz as <-. by rewrite Exy.
      + by rewrite (Hx y z Exy Eyz).
  Qed.
End lex_cmp_facts.

Lemma string_compare_lex (s t : string) :
  String.compare s t
  = lex_cmp Ascii.compare (list_ascii_of_string s) (list_ascii_of_string t).
Proof.
  revert t. induction s as [| a s IH]; intros [| b t]; simpl; try done.
  by rewrite IH.
Qed.

Lemma ascii_compare_trans (a b d : ascii) :
  Ascii.compare a b = Lt → Ascii.compare b d = Lt → Ascii.compare a d = Lt.
Proof.
  unfold Ascii.compare. rewrite !N.compare_lt_iff. apply N.lt_trans.
Qed.

Lemma string_compare_trans (s t u : string) :
  String.compare s t = Lt → String.compare t u = Lt → String.compare s u = Lt.
Proof.
  rewrite !string_compare_lex. apply lex_cmp_trans.
  - apply Ascii.compare_eq_iff.
  - apply Forall_forall. intros a _ b d. apply ascii_compare_trans.
Qed.

Lemma key_cmp_refl (a : key) : key_cmp a a = Eq.
Proof.
  induction a as [| z | s | xs IH] using key_ind'; simpl; try done.
  - apply Z.compare_refl.
  - pose proof (String.compare_antisym s s) as H.
    destruct (String.compare s s); simpl in H; congruence.
  - by apply lex_cmp_refl.
Qed.

Lemma key_cmp_eq (a b : key) : key_cmp a b = Eq → a = b.
Proof.
  revert b. induction a as [| z | s | xs IH] using key_ind'; intros [| z' | s' | ys];
    simpl; try done.
  - intros ->%Z.compare_eq. done.
  - intros ->%String.compare_eq_iff. done.
  - intros ->%lex_cmp_eq; done.
Qed.

Lemma key_cmp_antisym (a b : key) : key_cmp b a = CompOpp (key_cmp a b).
Proof.
  revert b. induction a as [| z | s | xs IH] using key_ind'; intros [| z' | s' | ys];
    simpl; try done.
  - apply Z.compare_antisym.
  - apply String.compare_antisym.
  - by apply lex_cmp_antisym.
Qed.

Lemma key_cmp_trans (a b d : key) :
  key_cmp a b = Lt → key_cmp b d = Lt → key_cmp a d = Lt.
Proof.
  revert b d. induction a as [| z | s | xs IH] using key_ind';
    intros [| z' | s' | ys] [| z'' | s'' | zs]; simpl; try done.
  - rewrite !Z.compare_lt_iff. apply Z.lt_trans.
  - apply string_compare_trans.
  - apply lex_cmp_trans; [apply key_cmp_eq | done].
Qed.

#[global] Instance key_le_total : Total key_le.
Proof.
  intros a b. unfold key_le. rewrite (key_cmp_antisym a b).
  destruct (key_cmp a b); simpl; [left | left | right]; done.
Qed.

#[global] Instance key_le_trans : Transitive key_le.
Proof.
  intros a b d. unfold key_le. intros Hab Hbd.
  destruct (key_cmp a b) eqn:Eab; [| | done].
  - by apply key_cmp_eq in Eab as ->.
  - destruct (key_cmp b d) eqn:Ebd; [| | done].
    + apply key_cmp_eq in Ebd as <-. by rewrite Eab.
    + by rewrite (key_cmp_trans a b d Eab Ebd).
Qed.

#[global] Instance key_le_antisym : AntiSymm (=) key_le.
Proof.
  intros a b. unfold key_le. rewrite (key_cmp_antisym a b).
  destruct (key_cmp a b) eqn:E; simpl; try done.
  intros _ _. by apply key_cmp_eq.
Qed.

Lemma key_lt_irrefl (a : key) : ¬ key_lt a a.
Proof. unfold key_lt. by rewrite key_cmp_refl. Qed.

Lemma key_le_lt (a b : key) : key_le a b → a ≠ b → key_lt a b.
Proof.
  unfold key_le, key_lt. destruct (key_cmp a b) eqn:E; try done.
  by apply key_cmp_eq in E.
Qed.

Lemma key_lt_int (x y : Z) : key_lt (KInt x) (KInt y) ↔ x < y.
Proof. unfold key_lt. simpl. apply Z.compare_lt_iff. Qed.

Lemma key_lt_arc (a b a' b' : Z) :
  key_lt (KTuple [KInt a; KInt b]) (KTuple [KInt a'; KInt b'])
  ↔ a < a' ∨ (a = a' ∧ b < b').
Proof.
  unfold key_lt. simpl. destruct (Z.compare_spec a a') as [-> | H | H].
  - destruct (Z.compare_spec b b'); split; try done; try lia.
  - split; [by left | done].
  - split; [done | lia].
Qed.

(** ** [sorted] *)

Lemma sorted_Permutation (l : list key) : sorted l ≡ₚ l.
Proof. apply merge_sort_Permutation. Qed.

Lemma elem_of_sorted (l : list key) (k : key) : k ∈ sorted l ↔ k ∈ l.
Proof. by rewrite sorted_Permutation. Qed.

Lemma sorted_ascending (l : list key) : StronglySorted key_le (sorted l).
Proof. apply StronglySorted_merge_sort; apply _. Qed.

Lemma StronglySorted_le_lt (l : list key) :
  NoDup l → StronglySorted key_le l → StronglySorted key_lt l.
Proof.
  intros Hnd Hs. induction Hs as [| x l Hs IH Hx]; [constructor |].
  apply NoDup_cons in Hnd as [Hin Hnd]. constructor; [auto |].
  apply Forall_forall. intros y Hy. apply key_le_lt.
  - by eapply Forall_forall in Hx.
  - by intros ->.
Qed.

Lemma sorted_strictly_ascending (l : list key) :
  NoDup l → StronglySorted key_lt (sorted l).
Proof.
  intros Hnd. apply StronglySorted_le_lt; [| apply sorted_ascending].
  by rewrite sorted_Permutation.
Qed.

Lemma list_to_set_map_of_key_sorted (X : gset key) :
  list_to_set (sorted (elements X)) =@{gset key} X.
Proof.
  apply set_eq. intros k.
  by rewrite elem_of_list_to_set, elem_of_sorted, elem_of_elements.
Qed.

(** ** Accumulation and queries *)

Lemma line_data_fmap (self : CoverageData) :
  line_data self = (λ X, sorted (elements X)) <$> lines self.
Proof. apply (py_dict_map_items (λ X : gset key, sorted (elements X))). Qed.

Lemma arc_data_fmap (self : CoverageData) :
  arc_data self = (λ X, sorted (elements X)) <$> arcs self.
Proof. apply (py_dict_map_items (λ X : gset key, sorted (elements X))). Qed.

Lemma lines_add_line_data self d :
  lines (add_line_data self d) = merge_sets (lines self) d.
Proof. apply update_all_merge. Qed.

Lemma arcs_add_arc_data self d :
  arcs (add_arc_data self d) = merge_sets (arcs self) d.
Proof. apply update_all_merge. Qed.

Lemma add_line_data_merge self d :
  add_line_data self d = set_lines self (merge_sets (lines self) d).
Proof. unfold add_line_data. by rewrite update_all_merge. Qed.

Lemma add_arc_data_merge self d :
  add_arc_data self d = set_arcs self (merge_sets (arcs self) d).
Proof. unfold add_arc_data. by rewrite update_all_merge. Qed.

Lemma elem_of_executed_files self f :
  f ∈ executed_files self ↔ is_Some (lines self !! f).
Proof.
  unfold executed_files. rewrite list_elem_of_fmap. split.
  - intros [[k X] [-> H]]. apply elem_of_map_to_list in H. by exists X.
  - intros [X H]. exists (f, X). split; [done |]. by apply elem_of_map_to_list.
Qed.

Lemma executed_lines_add self d f :
  executed_lines (add_line_data self d) f
  = executed_lines self f ∪ default ∅ (d !! f).
Proof.
  unfold executed_lines. rewrite lines_add_line_data, lookup_merge_sets.
  destruct (lines self !! f), (d !! f); simpl; set_solver.
Qed.

(** C1: two [add_line_data] calls that bring the sets [A] and [B] for the
    file [f] leave [executed_lines f] equal to the previous set united with
    [A] and [B]; the two calls commute; repeating a call changes nothing;
    and the entry of [f] exists afterwards even if it did not before. *)
Theorem add_line_data_union (self : CoverageData) (d1 d2 : gmap key (gset key))
    (f : key) (A B : gset key) :
  d1 !! f = Some A →
  d2 !! f = Some B →
  executed_lines (add_line_data (add_line_data self d1) d2) f
    = executed_lines self f ∪ A ∪ B
  ∧ add_line_data (add_line_data self d1) d2
    = add_line_data (add_line_data self d2) d1
  ∧ add_line_data (add_line_data self d1) d1 = add_line_data self d1
  ∧ lines (add_line_data self d1) !! f = Some (executed_lines self f ∪ A).
Proof.
  intros HA HB. repeat split.
  - rewrite !executed_lines_add, HA, HB. done.
  - rewrite !add_line_data_merge. unfold set_lines, set_lines_arcs; simpl.
    f_equal. rewrite !merge_sets_assoc. f_equal. apply merge_sets_comm.
  - rewrite !add_line_data_merge. unfold set_lines, set_lines_arcs; simpl.
    f_equal. apply merge_sets_absorb.
  - rewrite lines_add_line_data, lookup_merge_sets, HA. unfold executed_lines.
    destruct (lines self !! f); simpl; f_equal; set_solver.
Qed.

Lemma add_line_data_union_witness :
  let self := fresh "/d/.coverage" in
  let d1 : gmap key (gset key) := {[ KStr "a.py" := ints [1; 2; 3] ]} in
  let d2 : gmap key (gset key) := {[ KStr "a.py" := ints [2; 3; 4] ]} in
  d1 !! KStr "a.py" = Some (ints [1; 2; 3])
  ∧ d2 !! KStr "a.py" = Some (ints [2; 3; 4])
  ∧ executed_lines (add_line_data (add_line_data self d1) d2) (KStr "a.py")
    = executed_lines self (KStr "a.py") ∪ ints [1; 2; 3] ∪ ints [2; 3; 4].
Proof.
  intros self d1 d2.
  assert (H1 : d1 !! KStr "a.py" = Some (ints [1; 2; 3])) by apply lookup_singleton_eq.
  assert (H2 : d2 !! KStr "a.py" = Some (ints [2; 3; 4])) by apply lookup_singleton_eq.
  split; [exact H1 |]. split; [exact H2 |].
  exact (proj1 (add_line_data_union self d1 d2 (KStr "a.py") _ _ H1 H2)).
Defined.

Lemma sorted_nil : sorted [] = [].
Proof. reflexivity. Qed.

Lemma line_data_lookup self f :
  line_data self !! f = (λ X, sorted (elements X)) <$> lines self !! f.
Proof. by rewrite line_data_fmap, lookup_fmap. Qed.

Lemma arc_data_lookup self f :
  arc_data self !! f = (λ X, sorted (elements X)) <$> arcs self !! f.
Proof. by rewrite arc_data_fmap, lookup_fmap. Qed.

(** C9: adding a map that gives [f] the empty set creates the entry of
    [f]: [f] is among [executed_files], and [line_data] lists it, with the
    empty list when [f] was unknown before; [add_arc_data] does the same
    to the arc map. *)
Theorem add_empty_set_creates_entry (self : CoverageData)
    (d : gmap key (gset key)) (f : key) :
  d !! f = Some ∅ →
  (f ∈ executed_files (add_line_data self d)
   ∧ line_data (add_line_data self d) !! f
     = Some (sorted (elements (executed_lines self f)))
   ∧ (lines self !! f = None →
      lines (add_line_data self d) !! f = Some ∅
      ∧ line_data (add_line_data self d) !! f = Some []))
  ∧ (arcs (add_arc_data self d) !! f = Some (executed_arcs self f)
     ∧ arc_data (add_arc_data self d) !! f
       = Some (sorted (elements (executed_arcs self f)))
     ∧ (arcs self !! f = None →
        arcs (add_arc_data self d) !! f = Some ∅
        ∧ arc_data (add_arc_data self d) !! f = Some [])).
Proof.
  intros Hd.
  assert (Hl : lines (add_line_data self d) !! f = Some (executed_lines self f)).
  { rewrite lines_add_line_data, lookup_merge_sets, Hd. unfold executed_lines.
    destruct (lines self !! f); simpl; f_equal; set_solver. }
  assert (Ha : arcs (add_arc_data self d) !! f = Some (executed_arcs self f)).
  { rewrite arcs_add_arc_data, lookup_merge_sets, Hd. unfold executed_arcs.
    destruct (arcs self !! f); simpl; f_equal; set_solver. }
  split.
  - split; [apply elem_of_executed_files; by rewrite Hl |].
    split; [by rewrite line_data_lookup, Hl |].
    intros Hnone. rewrite line_data_lookup, Hl. unfold executed_lines.
    rewrite Hnone. simpl. by rewrite elements_empty.
  - split; [done |]. split; [by rewrite arc_data_lookup, Ha |].
    intros Hnone. rewrite arc_data_lookup, Ha. unfold executed_arcs.
    rewrite Hnone. simpl. by rewrite elements_empty.
Qed.

Lemma add_empty_set_creates_entry_witness :
  let self := fresh "/d/.coverage" in
  let d : gmap key (gset key) := {[ KStr "never_run.py" := ∅ ]} in
  d !! KStr "never_run.py" = Some ∅
  ∧ KStr "never_run.py" ∈ executed_files (add_line_data self d)
  ∧ line_data (add_line_data self d) !! KStr "never_run.py" = Some []
  ∧ arc_data (add_arc_data self d) !! KStr "never_run.py" = Some [].
Proof.
  intros self d.
  assert (Hd : d !! KStr "never_run.py" = Some ∅) by apply lookup_singleton_eq.
  destruct (add_empty_set_creates_entry self d (KStr "never_run.py") Hd)
    as [(Hin & _ & Hl) (_ & _ & Ha)].
  split; [exact Hd |]. split; [exact Hin |].
  split; [apply Hl | apply Ha]; apply lookup_empty.
Defined.

(** ** erase *)

Lemma executed_files_empty self : lines self = ∅ → executed_files self = [].
Proof. intros H. unfold executed_files. by rewrite H, map_to_list_empty. Qed.

(** C7: whenever [erase] returns, the line and arc maps are empty, so
    [executed_files] is empty, whatever the file-storage flag; with file
    storage on and a file at the store's path, that file is gone from the
    disk afterwards and nothing else on disk changed; with file storage
    off the disk is untouched.  [erase] does return whenever file storage is
    off or the store's path is not a directory. *)
Theorem erase_resets (fs : filesystem) (self : CoverageData) :
  (∀ fs' self', erase fs self = Ok (fs', self') →
     lines self' = ∅ ∧ arcs self' = ∅ ∧ executed_files self' = []
     ∧ (use_file self = true → filename self ≠ EmptyString →
        ∀ c, fs !! filename self = Some (File c) →
        fs' = delete (filename self) fs ∧ os_path_exists fs' (filename self) = false)
     ∧ (use_file self = false → fs' = fs))
  ∧ ((use_file self = false ∨ ∀ names, fs !! filename self ≠ Some (Dir names)) →
     ∃ fs', erase fs self = Ok (fs', set_lines_arcs self ∅ ∅)).
Proof.
  unfold erase. split.
  - intros fs' self' H.
    assert (Hstate : ∀ fs1, Ok (fs1, set_lines_arcs self ∅ ∅) = Ok (fs', self') →
              lines self' = ∅ ∧ arcs self' = ∅ ∧ executed_files self' = []).
    { intros fs1 [= _ <-]. done. }
    destruct (use_file self) eqn:Hu; simpl in H.
    + destruct (negb (String.eqb (filename self) EmptyString)
                && os_path_exists fs (filename self)) eqn:Hc; simpl in H.
      * unfold os_remove in H.
        destruct (fs !! filename self) as [[names | c] |] eqn:Hf; simpl in H;
          try discriminate.
        destruct (Hstate _ H) as (Hl & Ha & He). injection H as <- <-.
        split; [done |]. split; [done |]. split; [done |].
        split; [| done]. intros _ _ c' _. split; [done |].
        unfold os_path_exists. apply bool_decide_eq_false.
        rewrite lookup_delete_eq. by intros [? ?].
      * destruct (Hstate _ H) as (Hl & Ha & He). injection H as <- <-.
        split; [done |]. split; [done |]. split; [done |].
        split; [| done]. intros _ Hne c Hf. exfalso.
        apply andb_false_iff in Hc as [Hc | Hc].
        -- apply negb_false_iff, String.eqb_eq in Hc. done.
        -- unfold os_path_exists in Hc. apply bool_decide_eq_false in Hc.
           apply Hc. by rewrite Hf.
    + destruct (Hstate _ H) as (Hl & Ha & He). injection H as <- <-.
      split; [done |]. split; [done |]. split; [done |]. split; done.
  - intros H. destruct (use_file self) eqn:Hu; simpl; [| by eexists].
    destruct H as [H | H]; [done |].
    destruct (negb (String.eqb (filename self) EmptyString)
              && os_path_exists fs (filename self)) eqn:Hc; simpl; [| by eexists].
    unfold os_remove.
    destruct (fs !! filename self) as [[names | c] |] eqn:Hf; simpl.
    + by destruct (H names).
    + by eexists.
    + apply andb_true_iff in Hc as [_ Hc]. unfold os_path_exists in Hc.
      apply bool_decide_eq_true in Hc. rewrite Hf in Hc. by destruct Hc.
Qed.

Lemma erase_resets_witness :
  let fs : filesystem := {[ "/d/.coverage" := File (Pickle (VDict ∅)) ]} in
  let self := add_line_data (fresh "/d/.coverage") {[ KStr "a.py" := ints [1; 2] ]} in
  ∃ fs' self',
    erase fs self = Ok (fs', self')
    ∧ lines self' = ∅ ∧ arcs self' = ∅ ∧ executed_files self' = []
    ∧ os_path_exists fs' (filename self) = false.
Proof.
  intros fs self.
  destruct (erase_resets fs self) as [Hpost Hreturns].
  destruct Hreturns as [fs' Hfs'].
  { right. intros names. unfold fs. rewrite lookup_singleton_eq. discriminate. }
  exists fs', (set_lines_arcs self ∅ ∅).
  destruct (Hpost _ _ Hfs') as (Hl & Ha & He & Hdel & _).
  split; [exact Hfs' |]. split; [exact Hl |]. split; [exact Ha |].
  split; [exact He |].
  apply (Hdel eq_refl) with (c := Pickle (VDict ∅)).
  - discriminate.
  - apply lookup_singleton_eq.
Defined.

(** ** Parallel combine *)

(** What the directory entry [f] contributes: the lines decoded from it
    when its name starts with the prefix, nothing otherwise. *)
Definition contribution (fs : filesystem) (data_dir local f : string)
    : gmap key (gset key) :=
  if String.prefix local f then (_read_file fs (os_path_join data_dir f)).1 else ∅.

(** The merge of the contributions of all listed entries. *)
Definition siblings_lines (fs : filesystem) (data_dir local : string)
    (names : list string) : gmap key (gset key) :=
  foldr (λ f acc, merge_sets (contribution fs data_dir local f) acc) ∅ names.

(** The directory that [combine_parallel_data] lists. *)
Definition listed_dir (self : CoverageData) : string :=
  let data_dir := (os_path_split (filename self)).1 in
  if String.eqb data_dir EmptyString then "." else data_dir.

Lemma combine_entry_merge fs data_dir local acc f :
  combine_entry fs data_dir local acc f
  = merge_sets acc (contribution fs data_dir local f).
Proof.
  unfold combine_entry, contribution. destruct (String.prefix local f).
  - destruct (_read_file fs (os_path_join data_dir f)) as [l a]. simpl.
    apply update_all_merge.
  - by rewrite merge_sets_empty_r.
Qed.

Lemma combine_entries_merge fs data_dir local names acc :
  combine_entries fs data_dir local names acc
  = merge_sets acc (siblings_lines fs data_dir local names).
Proof.
  unfold combine_entries. revert acc.
  induction names as [| f names IH]; intros acc; simpl.
  - by rewrite merge_sets_empty_r.
  - by rewrite IH, combine_entry_merge, merge_sets_assoc.
Qed.

Lemma siblings_lines_perm fs data_dir local names names' :
  names ≡ₚ names' →
  siblings_lines fs data_dir local names = siblings_lines fs data_dir local names'.
Proof.
  unfold siblings_lines. induction 1 as [| f l l' _ IH | f g l | l l' l'' _ IH1 _ IH2];
    simpl.
  - done.
  - by rewrite IH.
  - rewrite <- !merge_sets_assoc. f_equal. apply merge_sets_comm.
  - by rewrite IH1.
Qed.

Lemma combine_parallel_data_unfold fs self :
  combine_parallel_data fs self =
    names ← os_listdir fs (listed_dir self);
    Ok (set_lines self
          (merge_sets (lines self)
             (siblings_lines fs (os_path_split (filename self)).1
                (os_path_split (filename self)).2 names))).
Proof.
  unfold combine_parallel_data, listed_dir.
  destruct (os_path_split (filename self)) as [data_dir local]. simpl.
  destruct (os_listdir _ _); simpl; [| done].
  by rewrite combine_entries_merge.
Qed.

(** C5: a combine that returns leaves the arc map (and the configuration)
    as it was, whatever the sibling files hold; the line map becomes the
    old one merged with the lines decoded from the siblings.  It returns
    whenever the listed directory exists. *)
Theorem combine_keeps_arcs (fs : filesystem) (self : CoverageData) :
  (∀ self', combine_parallel_data fs self = Ok self' →
     arcs self' = arcs self
     ∧ filename self' = filename self
     ∧ ∃ names, fs !! listed_dir self = Some (Dir names)
        ∧ lines self'
          = merge_sets (lines self)
              (siblings_lines fs (os_path_split (filename self)).1
                 (os_path_split (filename self)).2 names))
  ∧ (∀ names, fs !! listed_dir self = Some (Dir names) →
     ∃ self', combine_parallel_data fs self = Ok self').
Proof.
  rewrite combine_parallel_data_unfold. unfold os_listdir. split.
  - intros self'.
    destruct (fs !! listed_dir self) as [[names | c] |]; simpl; try done.
    intros [= <-]. split; [done |]. split; [done |]. by exists names.
  - intros names ->. simpl. by eexists.
Qed.

(** Two runs on one directory, [/d]: [cov.1] holds lines 1 2 3 of [a.py],
    [cov.2] holds lines 2 3 4 and an arc, [cov.3] is corrupt, [other] does
    not carry the prefix. *)
Definition example_disk : filesystem :=
  {[ "/d" := Dir ["cov.1"; "other"; "cov.2"; "cov.3"];
     "/d/cov.1" :=
       File (Pickle (VDict {[ KStr "lines" :=
                                VDict {[ KStr "a.py" := VList [VInt 1; VInt 2; VInt 3] ]} ]}));
     "/d/cov.2" :=
       File (Pickle (VDict {[ KStr "lines" :=
                                VDict {[ KStr "a.py" := VList [VInt 4; VInt 2; VInt 3; VInt 3] ]};
                              KStr "arcs" :=
                                VDict {[ KStr "a.py" := VList [VTuple [VInt 2; VInt 3]] ]} ]}));
     "/d/cov.3" := File Garbled;
     "/d/other" :=
       File (Pickle (VDict {[ KStr "lines" :=
                                VDict {[ KStr "b.py" := VList [VInt 9] ]} ]})) ]}.

(** What a run of combine leaves, made observable: the items of
    [line_data()] and of [arc_data()], or nothing when it raised. *)
Definition observe (r : result CoverageData)
    : option (list (key * list key) * list (key * list key)) :=
  match r with
  | Ok self => Some (map_to_list (line_data self), map_to_list (arc_data self))
  | Raise _ => None
  end.

Example combine_example :
  observe (combine_parallel_data example_disk (fresh "/d/cov"))
  = Some ([(KStr "a.py", [KInt 1; KInt 2; KInt 3; KInt 4])], []).
Proof. vm_compute. reflexivity. Qed.

Lemma combine_keeps_arcs_witness :
  example_disk !! listed_dir (fresh "/d/cov")
    = Some (Dir ["cov.1"; "other"; "cov.2"; "cov.3"])
  ∧ ∃ self', combine_parallel_data example_disk (fresh "/d/cov") = Ok self'
      ∧ arcs self' = arcs (fresh "/d/cov").
Proof.
  assert (Hdir : example_disk !! listed_dir (fresh "/d/cov")
                 = Some (Dir ["cov.1"; "other"; "cov.2"; "cov.3"])) by reflexivity.
  split; [exact Hdir |].
  destruct (combine_keeps_arcs example_disk (fresh "/d/cov")) as [Hpost Hreturns].
  destruct (Hreturns _ Hdir) as [self' Hself'].
  exists self'. split; [exact Hself' |]. exact (proj1 (Hpost _ Hself')).
Defined.

Lemma open_rb_relist fs dir names names' path :
  fs !! dir = Some (Dir names) →
  open_rb (<[dir := Dir names']> fs) path = open_rb fs path.
Proof.
  intros Hdir. unfold open_rb. destruct (decide (dir = path)) as [-> | Hne].
  - by rewrite lookup_insert_eq, Hdir.
  - by rewrite lookup_insert_ne.
Qed.

Lemma _read_file_relist fs dir names names' path :
  fs !! dir = Some (Dir names) →
  _read_file (<[dir := Dir names']> fs) path = _read_file fs path.
Proof.
  intros Hdir. unfold _read_file, raw_data.
  by rewrite (open_rb_relist fs dir names names' path Hdir).
Qed.

Lemma siblings_lines_relist fs dir names names' data_dir local l :
  fs !! dir = Some (Dir names) →
  siblings_lines (<[dir := Dir names']> fs) data_dir local l
  = siblings_lines fs data_dir local l.
Proof.
  intros Hdir. unfold siblings_lines, contribution.
  induction l as [| f l IH]; simpl; [done |].
  by rewrite IH, (_read_file_relist fs dir names names' _ Hdir).
Qed.

(** C4: with the listed directory holding the entries [names], combine
    returns a store; it returns the same store when the directory lists the
    same entries in any other order [names']; and running it again on its
    own result changes nothing. *)
Theorem combine_order_independent (fs : filesystem) (self : CoverageData)
    (names names' : list string) :
  fs !! listed_dir self = Some (Dir names) →
  names ≡ₚ names' →
  ∃ self',
    combine_parallel_data fs self = Ok self'
    ∧ combine_parallel_data (<[listed_dir self := Dir names']> fs) self = Ok self'
    ∧ line_data self'
      = (λ X, sorted (elements X)) <$>
          merge_sets (lines self)
            (siblings_lines fs (os_path_split (filename self)).1
               (os_path_split (filename self)).2 names)
    ∧ combine_parallel_data fs self' = Ok self'.
Proof.
  intros Hdir Hperm. eexists. rewrite !combine_parallel_data_unfold.
  unfold os_listdir. rewrite Hdir, lookup_insert_eq. simpl.
  split; [reflexivity |]. split; [| split].
  - do 2 f_equal.
    rewrite (siblings_lines_relist fs _ names names' _ _ _ Hdir).
    f_equal. symmetry. by apply siblings_lines_perm.
  - by rewrite line_data_fmap.
  - unfold listed_dir. simpl. fold (listed_dir self). rewrite Hdir. simpl.
    unfold set_lines, set_lines_arcs. simpl. do 2 f_equal.
    apply merge_sets_absorb.
Qed.

Lemma combine_order_independent_witness :
  example_disk !! listed_dir (fresh "/d/cov")
    = Some (Dir ["cov.1"; "other"; "cov.2"; "cov.3"])
  ∧ ["cov.1"; "other"; "cov.2"; "cov.3"] ≡ₚ ["cov.3"; "cov.2"; "other"; "cov.1"]
  ∧ ∃ self',
      combine_parallel_data example_disk (fresh "/d/cov") = Ok self'
      ∧ combine_parallel_data
          (<[listed_dir (fresh "/d/cov") := Dir ["cov.3"; "cov.2"; "other"; "cov.1"]]>
             example_disk)
          (fresh "/d/cov") = Ok self'
      ∧ combine_parallel_data example_disk self' = Ok self'.
Proof.
  assert (Hdir : example_disk !! listed_dir (fresh "/d/cov")
                 = Some (Dir ["cov.1"; "other"; "cov.2"; "cov.3"])) by reflexivity.
  assert (Hperm : ["cov.1"; "other"; "cov.2"; "cov.3"]
                  ≡ₚ ["cov.3"; "cov.2"; "other"; "cov.1"]).
  { symmetry. apply (reverse_Permutation ["cov.1"; "other"; "cov.2"; "cov.3"]). }
  split; [exact Hdir |]. split; [exact Hperm |].
  destruct (combine_order_independent example_disk (fresh "/d/cov") _ _ Hdir Hperm)
    as (self' & H1 & H2 & _ & H3).
  exists self'. split; [exact H1 |]. split; [exact H2 | exact H3].
Defined.

(** ** Decoding *)

Lemma comprehension_Ok {A B} (f : A → result B) (g : A → B) (l : list A) :
  Forall (λ x, f x = Ok (g x)) l → comprehension f l = Ok (map g l).
Proof.
  induction 1 as [| x l Hx _ IH]; simpl; [done |]. by rewrite Hx, IH.
Qed.

Lemma comprehension_Raise {A B} (f : A → result B) (l : list A) (x : A) (e : exn) :
  x ∈ l → f x = Raise e → ∃ e', comprehension f l = Raise e'.
Proof.
  intros Hin Hx. induction l as [| y l IH]; [by apply elem_of_nil in Hin |].
  simpl. apply elem_of_cons in Hin as [<- | Hin].
  - rewrite Hx. by eexists.
  - destruct (f y); simpl; [| by eexists].
    destruct (IH Hin) as [e' ->]. by eexists.
Qed.

Lemma comprehension_hash_keys (l : list key) :
  comprehension py_hash (map of_key l) = Ok l.
Proof.
  rewrite (comprehension_Ok py_hash (λ v, default KNone (to_key v))).
  - f_equal. induction l as [| k l IH]; simpl; [done |].
    by rewrite to_key_of_key, IH.
  - apply Forall_forall. intros v [k [-> _]]%list_elem_of_fmap.
    unfold py_hash. by rewrite to_key_of_key.
Qed.

Lemma dict_fromkeys_list_of_keys (l : list key) :
  dict_fromkeys (VList (map of_key l)) = Ok (list_to_set l).
Proof. unfold dict_fromkeys. simpl. by rewrite comprehension_hash_keys. Qed.

(** The set [dict.fromkeys] gives, the empty set standing for a raise. *)
Definition fromkeys_or_empty (v : pyval) : gset key :=
  match dict_fromkeys v with
  | Ok X => X
  | Raise _ => ∅
  end.

Lemma unpack_item_Ok (m : gmap key pyval) :
  map_Forall (λ _ v, ∃ X, dict_fromkeys v = Ok X) m →
  unpack_item (VDict m) = Ok (fromkeys_or_empty <$> m).
Proof.
  intros Hm. unfold unpack_item. simpl.
  rewrite (comprehension_Ok _ (λ kv, (kv.1, fromkeys_or_empty kv.2))).
  - simpl. f_equal. apply py_dict_map_items.
  - apply Forall_forall. intros [k v] Hkv%elem_of_map_to_list.
    destruct (Hm k v Hkv) as [X HX]. simpl. unfold fromkeys_or_empty.
    by rewrite HX.
Qed.

Lemma unpack_item_Raise (m : gmap key pyval) (k : key) (v : pyval) (e : exn) :
  m !! k = Some v → dict_fromkeys v = Raise e →
  ∃ e', unpack_item (VDict m) = Raise e'.
Proof.
  intros Hk Hv. unfold unpack_item. simpl.
  destruct (comprehension_Raise
              (λ fseq : key * pyval, d ← dict_fromkeys fseq.2; Ok (fseq.1, d))
              (map_to_list m) (k, v) e) as [e' He'].
  - by apply elem_of_map_to_list.
  - simpl. by rewrite Hv.
  - rewrite He'. by eexists.
Qed.

Lemma unpack_item_not_dict (v : pyval) :
  (∀ m, v ≠ VDict m) → unpack_item v = Raise AttributeError.
Proof. intros H. destruct v; try done. by destruct (H d). Qed.

Lemma unpack_item_empty : unpack_item (VDict ∅) = Ok ∅.
Proof.
  rewrite unpack_item_Ok; [by rewrite fmap_empty |]. apply map_Forall_empty.
Qed.

Lemma unpack_dict_of_lists (m : gmap key (list key)) :
  unpack_item (dict_of_lists m) = Ok (list_to_set <$> m).
Proof.
  unfold dict_of_lists. rewrite unpack_item_Ok.
  - f_equal. rewrite <- map_fmap_compose. apply map_fmap_ext.
    intros k l _. simpl. unfold fromkeys_or_empty.
    by rewrite dict_fromkeys_list_of_keys.
  - intros k v. rewrite lookup_fmap. intros [l [_ ->]]%fmap_Some.
    eexists. apply dict_fromkeys_list_of_keys.
Qed.

Lemma unpack_written_sets (m : gmap key (gset key)) :
  unpack_item (dict_of_lists ((λ X, sorted (elements X)) <$> m)) = Ok m.
Proof.
  rewrite unpack_dict_of_lists. f_equal. rewrite <- map_fmap_compose.
  rewrite <- (map_fmap_id m) at 2. apply map_fmap_ext.
  intros k X _. simpl. apply list_to_set_map_of_key_sorted.
Qed.

(** ** The record written by [write_file] *)

Lemma file_data_lines self :
  file_data self !! KStr "lines" = Some (dict_of_lists (line_data self)).
Proof.
  unfold file_data.
  destruct (str_truthy (collector self)), (dict_truthy (arc_data self));
    by simplify_map_eq.
Qed.

Lemma file_data_arcs self :
  file_data self !! KStr "arcs"
  = if dict_truthy (arc_data self) then Some (dict_of_lists (arc_data self)) else None.
Proof.
  unfold file_data.
  destruct (str_truthy (collector self)), (dict_truthy (arc_data self));
    by simplify_map_eq.
Qed.

Lemma file_data_collector self :
  file_data self !! KStr "collector"
  = if str_truthy (collector self)
    then Some (VStr (default EmptyString (collector self))) else None.
Proof.
  unfold file_data.
  destruct (str_truthy (collector self)), (dict_truthy (arc_data self));
    by simplify_map_eq.
Qed.

Lemma arc_data_truthy self : dict_truthy (arc_data self) = true ↔ arcs self ≠ ∅.
Proof.
  rewrite dict_truthy_spec, arc_data_fmap. split; intros H Hempty; apply H.
  - by rewrite Hempty, fmap_empty.
  - by apply fmap_empty_inv in Hempty.
Qed.

Lemma str_truthy_spec (s : option string) :
  str_truthy s = true ↔ ∃ c, s = Some c ∧ c ≠ EmptyString.
Proof.
  destruct s as [[| a c] |]; simpl; split.
  - done.
  - by intros (c & [= <-] & Hc).
  - intros _. by eexists.
  - done.
  - done.
  - by intros (c & ? & _).
Qed.

(** A store whose arc map has one file, with no arc at all. *)
Definition empty_arcs_store : CoverageData :=
  add_arc_data (fresh "/d/.coverage") {[ KStr "a.py" := ∅ ]}.

(** C6, as stated, fails: the record of [empty_arcs_store] has the 'arcs'
    key although no file of the store has a non-empty arc set. *)
Lemma arcs_key_without_arcs :
  is_Some (file_data empty_arcs_store !! KStr "arcs")
  ∧ ∀ f A, arcs empty_arcs_store !! f = Some A → A = ∅.
Proof.
  assert (Harcs : arcs empty_arcs_store = {[ KStr "a.py" := ∅ ]}).
  { unfold empty_arcs_store. rewrite arcs_add_arc_data. simpl.
    rewrite merge_sets_comm. apply merge_sets_empty_r. }
  split.
  - rewrite file_data_arcs.
    assert (Ht : dict_truthy (arc_data empty_arcs_store) = true).
    { apply arc_data_truthy. rewrite Harcs. apply insert_non_empty. }
    rewrite Ht. by eexists.
  - intros f A. rewrite Harcs. by intros [_ <-]%lookup_singleton_Some.
Qed.

(** C6, amended: the record always has the 'lines' key, holding for every
    file of the line map its sorted line list; it has the 'arcs' key
    exactly when the arc map has at least one file (with or without arcs),
    holding the sorted arc lists; it has the 'collector' key exactly when
    the collector is a non-empty string; it has no other key. *)
Theorem file_data_keys (self : CoverageData) :
  file_data self !! KStr "lines"
    = Some (VDict ((λ X, VList (map of_key (sorted (elements X)))) <$> lines self))
  ∧ (is_Some (file_data self !! KStr "arcs") ↔ arcs self ≠ ∅)
  ∧ (is_Some (file_data self !! KStr "arcs") ↔
       file_data self !! KStr "arcs"
       = Some (VDict ((λ X, VList (map of_key (sorted (elements X)))) <$> arcs self)))
  ∧ (is_Some (file_data self !! KStr "collector") ↔
       ∃ c, collector self = Some c ∧ c ≠ EmptyString)
  ∧ (∀ c, file_data self !! KStr "collector" = Some c ↔
          c = VStr (default EmptyString (collector self))
          ∧ str_truthy (collector self) = true)
  ∧ dom (file_data self) ⊆ {[ KStr "lines"; KStr "arcs"; KStr "collector" ]}.
Proof.
  split; [| split; [| split; [| split; [| split]]]].
  - rewrite file_data_lines. unfold dict_of_lists.
    by rewrite line_data_fmap, <- map_fmap_compose.
  - rewrite file_data_arcs, <- arc_data_truthy.
    destruct (dict_truthy (arc_data self)); split;
      first [done | by eexists | by intros [? ?]].
  - rewrite file_data_arcs.
    destruct (dict_truthy (arc_data self)); split;
      first [done | by eexists | by intros [? ?] | idtac].
    intros _. unfold dict_of_lists.
    by rewrite arc_data_fmap, <- map_fmap_compose.
  - rewrite file_data_collector, <- str_truthy_spec.
    destruct (str_truthy (collector self)); split;
      first [done | by eexists | by intros [? ?]].
  - intros c. rewrite file_data_collector.
    destruct (str_truthy (collector self)); split;
      first [done | by intros [= <-] | by intros [-> _] | by intros [_ ?]].
  - intros k Hk. apply elem_of_dom in Hk. unfold file_data in Hk.
    destruct (str_truthy (collector self)), (dict_truthy (arc_data self));
      repeat (apply lookup_insert_is_Some in Hk as [<- | [_ Hk]]; [set_solver |]);
      rewrite lookup_empty in Hk; by destruct Hk.
Qed.

(** ** Round trip *)

(** When [open(path, 'wb')] succeeds: the path is an existing file, or it
    is absent, has a name, and the directory it lives in exists. *)
Definition writable (fs : filesystem) (path : string) : Prop :=
  (∃ c, fs !! path = Some (File c))
  ∨ (fs !! path = None
     ∧ entry_name path ≠ EmptyString
     ∧ ∃ names, fs !! parent_dir path = Some (Dir names)).

Lemma open_wb_write_returns fs path c :
  writable fs path → ∃ fs', open_wb_write fs path c = Ok fs'.
Proof.
  unfold open_wb_write.
  intros [[c0 ->] | (-> & Hname & names & ->)]; [by eexists |].
  apply String.eqb_neq in Hname. rewrite Hname. by eexists.
Qed.

Lemma open_wb_write_inv fs path c fs' :
  open_wb_write fs path c = Ok fs' →
  fs' !! path = Some (File c)
  ∧ (∀ p, p ≠ path → p ≠ parent_dir path → fs' !! p = fs !! p)
  ∧ (fs !! path = None →
     ∃ names, fs' !! parent_dir path = Some (Dir names)
              ∧ entry_name path ∈ names).
Proof.
  unfold open_wb_write.
  destruct (fs !! path) as [[names | c0] |] eqn:Hp; try done.
  - intros [= <-]. split; [apply lookup_insert_eq |]. split; [| done].
    intros p Hne _. by rewrite lookup_insert_ne.
  - destruct (fs !! parent_dir path) as [[names | c0] |] eqn:Hd; try done.
    destruct (String.eqb (entry_name path) EmptyString); [done |].
    intros [= <-]. split; [apply lookup_insert_eq |]. split.
    + intros p Hne Hne'. by rewrite !lookup_insert_ne.
    + intros _. eexists. split.
      * rewrite lookup_insert_ne by (intros Heq; congruence).
        apply lookup_insert_eq.
      * case_bool_decide; [done |]. apply elem_of_app. right.
        apply elem_of_cons. by left.
Qed.

Lemma open_wb_write_lookup fs path c fs' :
  open_wb_write fs path c = Ok fs' → fs' !! path = Some (File c).
Proof.
  by intros [H _]%open_wb_write_inv.
Qed.

Lemma open_wb_write_again fs path c c' fs1 :
  open_wb_write fs path c = Ok fs1 →
  open_wb_write fs1 path c' = Ok (<[path := File c']> fs1)
  ∧ open_wb_write fs path c' = Ok (<[path := File c']> fs1).
Proof.
  intros H. split.
  - unfold open_wb_write. by rewrite (open_wb_write_lookup _ _ _ _ H).
  - revert H. unfold open_wb_write.
    destruct (fs !! path) as [[names | c0] |] eqn:Hp; try done.
    + intros [= <-]. by rewrite insert_insert_eq.
    + destruct (fs !! parent_dir path) as [[names | c0] |] eqn:Hd; try done.
      destruct (String.eqb (entry_name path) EmptyString); [done |].
      intros [= <-]. by rewrite insert_insert_eq.
Qed.

Lemma raw_data_written fs fs' self fname :
  write_file fs self fname = Ok fs' →
  raw_data fs' fname = Ok (VDict (file_data self)).
Proof.
  unfold write_file. intros H%open_wb_write_lookup.
  unfold raw_data, open_rb. by rewrite H.
Qed.

Lemma _read_file_written fs fs' self fname :
  write_file fs self fname = Ok fs' →
  _read_file fs' fname = (lines self, arcs self).
Proof.
  intros Hw. unfold _read_file. rewrite (raw_data_written _ _ _ _ Hw).
  unfold dict_get_or_empty. rewrite file_data_lines, file_data_arcs. simpl.
  rewrite line_data_fmap, unpack_written_sets.
  destruct (dict_truthy (arc_data self)) eqn:Ht; simpl.
  - by rewrite arc_data_fmap, unpack_written_sets.
  - rewrite unpack_item_empty. f_equal.
    destruct (decide (arcs self = ∅)) as [-> | Hne]; [done |].
    apply arc_data_truthy in Hne. congruence.
Qed.

(** C2: [write_file] returns whenever its path is an existing file, or is
    absent, has a name and lives in an existing directory; and whenever it
    returns, reading that path back into any store (a fresh one in
    particular) gives the line and arc maps of the written store, hence the
    same [line_data()] and [arc_data()]. *)
Theorem write_read_roundtrip (fs : filesystem) (self other : CoverageData)
    (fname : string) :
  (writable fs fname → ∃ fs', write_file fs self fname = Ok fs')
  ∧ (∀ fs', write_file fs self fname = Ok fs' →
       line_data (read_file fs' other fname) = line_data self
       ∧ arc_data (read_file fs' other fname) = arc_data self
       ∧ lines (read_file fs' other fname) = lines self
       ∧ arcs (read_file fs' other fname) = arcs self).
Proof.
  split; [apply open_wb_write_returns |].
  intros fs' Hw. unfold read_file. rewrite (_read_file_written _ _ _ _ Hw).
  by rewrite !line_data_fmap, !arc_data_fmap.
Qed.

(** A disk with the empty directory [/d]. *)
Definition empty_dir_disk : filesystem := {[ "/d" := Dir [] ]}.

Lemma writable_empty_dir_disk : writable empty_dir_disk "/d/.coverage".
Proof.
  right. split; [reflexivity |]. split; [discriminate |].
  exists []. reflexivity.
Qed.

Lemma write_read_roundtrip_witness :
  let self :=
    add_arc_data
      (add_line_data (fresh "/d/.coverage") {[ KStr "a.py" := ints [3; 1; 2] ]})
      {[ KStr "a.py" := {[ arc 1 2; arc 2 3 ]} ]} in
  writable empty_dir_disk "/d/.coverage"
  ∧ ∃ fs',
      write_file empty_dir_disk self "/d/.coverage" = Ok fs'
      ∧ line_data (read_file fs' (fresh "/d/.coverage") "/d/.coverage") = line_data self
      ∧ arc_data (read_file fs' (fresh "/d/.coverage") "/d/.coverage") = arc_data self.
Proof.
  intros self.
  split; [exact writable_empty_dir_disk |].
  destruct (write_read_roundtrip empty_dir_disk self (fresh "/d/.coverage")
              "/d/.coverage") as [Hreturns Hback].
  destruct (Hreturns writable_empty_dir_disk) as [fs' Hw].
  destruct (Hback fs' Hw) as (Hl & Ha & _).
  exists fs'. split; [exact Hw |]. split; [exact Hl | exact Ha].
Defined.

(** ** The defensive decoder *)

(** The record shape of the class docstring: a dict whose 'collector', if
    any, is a string, whose 'lines', if any, maps file names to lists of
    line numbers, and whose 'arcs', if any, maps file names to lists of
    pairs of line numbers. *)
Definition is_lineno (v : pyval) : bool :=
  match v with
  | VInt _ => true
  | _ => false
  end.

Definition is_arc_pair (v : pyval) : bool :=
  match v with
  | VTuple [VInt _; VInt _] => true
  | _ => false
  end.

Definition is_list_of (elem : pyval → bool) (v : pyval) : bool :=
  match v with
  | VList xs => forallb elem xs
  | _ => false
  end.

Definition is_file_map (elem : pyval → bool) (v : pyval) : bool :=
  match v with
  | VDict m =>
      forallb (λ kv, match kv.1 with
                     | KStr _ => is_list_of elem kv.2
                     | _ => false
                     end) (map_to_list m)
  | _ => false
  end.

Definition record_shape (v : pyval) : bool :=
  match v with
  | VDict d =>
      match d !! KStr "collector" with
      | None | Some (VStr _) => true
      | Some _ => false
      end
      && is_file_map is_lineno (dict_get_or_empty d "lines")
      && is_file_map is_arc_pair (dict_get_or_empty d "arcs")
  | _ => false
  end.

(** The file at [fname] exists, is readable and unpickles to a record of
    the expected shape. *)
Definition expected_shape (fs : filesystem) (fname : string) : bool :=
  match raw_data fs fname with
  | Ok v => record_shape v
  | Raise _ => false
  end.

Lemma _read_file_unpacked fs fname d L (r : result (gmap key (gset key))) :
  fs !! fname = Some (File (Pickle (VDict d))) →
  unpack_item (dict_get_or_empty d "lines") = Ok L →
  unpack_item (dict_get_or_empty d "arcs") = r →
  _read_file fs fname = (L, match r with Ok A => A | Raise _ => ∅ end).
Proof.
  intros Hf HL Hr. unfold _read_file, raw_data, open_rb. rewrite Hf. simpl.
  rewrite HL, Hr. by destruct r.
Qed.

(** A record with good 'lines' and an 'arcs' item that is not a dict. *)
Definition bad_arcs_record : gmap key pyval :=
  {[ KStr "lines" := VDict {[ KStr "a.py" := VList [VInt 1] ]};
     KStr "arcs" := VInt 5 ]}.

Definition bad_arcs_disk : filesystem :=
  {[ "/d/.coverage" := File (Pickle (VDict bad_arcs_record)) ]}.

Lemma bad_arcs_record_lines :
  unpack_item (dict_get_or_empty bad_arcs_record "lines")
  = Ok {[ KStr "a.py" := ints [1] ]}.
Proof.
  unfold dict_get_or_empty, bad_arcs_record. rewrite lookup_insert_eq. simpl.
  rewrite unpack_item_Ok.
  - by rewrite map_fmap_singleton.
  - apply map_Forall_singleton. by eexists.
Qed.

Lemma bad_arcs_record_arcs :
  unpack_item (dict_get_or_empty bad_arcs_record "arcs") = Raise AttributeError.
Proof.
  unfold dict_get_or_empty, bad_arcs_record.
  rewrite lookup_insert_ne by done. by rewrite lookup_singleton_eq.
Qed.

(** C3, as stated, fails: the file of [bad_arcs_disk] does not hold a
    record of the expected shape, and [_read_file] returns a line map that
    is not empty. *)
Lemma _read_file_partial_record :
  expected_shape bad_arcs_disk "/d/.coverage" = false
  ∧ _read_file bad_arcs_disk "/d/.coverage" = ({[ KStr "a.py" := ints [1] ]}, ∅)
  ∧ (_read_file bad_arcs_disk "/d/.coverage").1 ≠ ∅.
Proof.
  assert (H : _read_file bad_arcs_disk "/d/.coverage"
              = ({[ KStr "a.py" := ints [1] ]}, ∅)).
  { apply (_read_file_unpacked bad_arcs_disk "/d/.coverage" bad_arcs_record
             _ (Raise AttributeError)).
    - apply lookup_singleton_eq.
    - apply bad_arcs_record_lines.
    - apply bad_arcs_record_arcs. }
  split; [by vm_compute |]. split; [exact H |].
  rewrite H. simpl. apply insert_non_empty.
Qed.

Lemma raw_data_cases fs fname :
  raw_data fs fname =
    match fs !! fname with
    | Some (File (Pickle v)) => Ok v
    | Some (File Garbled) => Raise UnpicklingError
    | Some (Dir _) | None => Raise IOError
    end.
Proof.
  unfold raw_data, open_rb. by destruct (fs !! fname) as [[names | [| v]] |].
Qed.

(** C3, amended: [_read_file] always returns a pair of maps.  Both are
    empty when the file is missing, is a directory, does not unpickle,
    unpickles to something that is not a dict, or holds a 'lines' item that
    cannot be unpacked.  When the 'lines' item unpacks and the 'arcs' item
    cannot be, the decoded lines come back with an empty arc map; when both
    unpack, both come back. *)
Theorem _read_file_defensive (fs : filesystem) (fname : string) :
  (fs !! fname = None → _read_file fs fname = (∅, ∅))
  ∧ (∀ names, fs !! fname = Some (Dir names) → _read_file fs fname = (∅, ∅))
  ∧ (fs !! fname = Some (File Garbled) → _read_file fs fname = (∅, ∅))
  ∧ (∀ v, fs !! fname = Some (File (Pickle v)) → (∀ d, v ≠ VDict d) →
       _read_file fs fname = (∅, ∅))
  ∧ (∀ d, fs !! fname = Some (File (Pickle (VDict d))) →
       (∀ e, unpack_item (dict_get_or_empty d "lines") = Raise e →
          _read_file fs fname = (∅, ∅))
       ∧ (∀ L e, unpack_item (dict_get_or_empty d "lines") = Ok L →
            unpack_item (dict_get_or_empty d "arcs") = Raise e →
            _read_file fs fname = (L, ∅))
       ∧ (∀ L A, unpack_item (dict_get_or_empty d "lines") = Ok L →
            unpack_item (dict_get_or_empty d "arcs") = Ok A →
            _read_file fs fname = (L, A))).
Proof.
  unfold _read_file. rewrite raw_data_cases.
  split; [| split; [| split; [| split]]].
  - by intros ->.
  - by intros names ->.
  - by intros ->.
  - intros v -> Hv. destruct v; try done. by destruct (Hv d).
  - intros d ->. split; [| split].
    + by intros e ->.
    + by intros L e -> ->.
    + by intros L A -> ->.
Qed.

Lemma _read_file_defensive_witness :
  bad_arcs_disk !! "/d/.coverage" = Some (File (Pickle (VDict bad_arcs_record)))
  ∧ unpack_item (dict_get_or_empty bad_arcs_record "lines")
    = Ok {[ KStr "a.py" := ints [1] ]}
  ∧ unpack_item (dict_get_or_empty bad_arcs_record "arcs") = Raise AttributeError
  ∧ _read_file bad_arcs_disk "/d/.coverage" = ({[ KStr "a.py" := ints [1] ]}, ∅)
  ∧ _read_file bad_arcs_disk "/d/missing" = (∅, ∅).
Proof.
  assert (Hf : bad_arcs_disk !! "/d/.coverage"
               = Some (File (Pickle (VDict bad_arcs_record))))
    by apply lookup_singleton_eq.
  assert (Hl : unpack_item (dict_get_or_empty bad_arcs_record "lines")
               = Ok {[ KStr "a.py" := ints [1] ]}) by apply bad_arcs_record_lines.
  assert (Ha : unpack_item (dict_get_or_empty bad_arcs_record "arcs")
               = Raise AttributeError) by apply bad_arcs_record_arcs.
  assert (Hm : bad_arcs_disk !! "/d/missing" = None) by reflexivity.
  split; [exact Hf |]. split; [exact Hl |]. split; [exact Ha |].
  split.
  - destruct (_read_file_defensive bad_arcs_disk "/d/.coverage")
      as (_ & _ & _ & _ & Hdict).
    exact (proj1 (proj2 (Hdict _ Hf)) _ _ Hl Ha).
  - exact (proj1 (_read_file_defensive bad_arcs_disk "/d/missing") Hm).
Defined.

(** ** What a decoded store lists *)

Lemma sorted_elements_spec (X : gset key) :
  StronglySorted key_lt (sorted (elements X))
  ∧ NoDup (sorted (elements X))
  ∧ ∀ k, k ∈ sorted (elements X) ↔ k ∈ X.
Proof.
  split; [| split].
  - apply sorted_strictly_ascending, NoDup_elements.
  - rewrite sorted_Permutation. apply NoDup_elements.
  - intros k. by rewrite elem_of_sorted, elem_of_elements.
Qed.

Lemma _read_file_dict_of_lists fs fname d (L A : gmap key (list key)) :
  fs !! fname = Some (File (Pickle (VDict d))) →
  dict_get_or_empty d "lines" = dict_of_lists L →
  dict_get_or_empty d "arcs" = dict_of_lists A →
  _read_file fs fname = (list_to_set <$> L, list_to_set <$> A).
Proof.
  intros Hf HL HA.
  apply (_read_file_unpacked fs fname d _ (Ok (list_to_set <$> A)) Hf);
    rewrite ?HL, ?HA; apply unpack_dict_of_lists.
Qed.

(** C10: for a record whose 'lines' and 'arcs' items map files to lists of
    hashable elements [L] and [A], in any order and with any repetition,
    [read_file] leaves a store whose maps hold exactly the sets of those
    elements; each list of [line_data()] and [arc_data()] is then strictly
    ascending, hence free of duplicates, and has the elements of the stored
    sequence of its file, no more and no less. *)
Theorem read_file_sorted_sets (fs : filesystem) (self : CoverageData)
    (fname : string) (d : gmap key pyval) (L A : gmap key (list key)) :
  fs !! fname = Some (File (Pickle (VDict d))) →
  dict_get_or_empty d "lines" = dict_of_lists L →
  dict_get_or_empty d "arcs" = dict_of_lists A →
  lines (read_file fs self fname) = list_to_set <$> L
  ∧ arcs (read_file fs self fname) = list_to_set <$> A
  ∧ (∀ f, line_data (read_file fs self fname) !! f
          = (λ raw, sorted (elements (list_to_set raw : gset key))) <$> L !! f)
  ∧ (∀ f, arc_data (read_file fs self fname) !! f
          = (λ raw, sorted (elements (list_to_set raw : gset key))) <$> A !! f)
  ∧ (∀ f l, line_data (read_file fs self fname) !! f = Some l →
       StronglySorted key_lt l ∧ NoDup l
       ∧ ∃ raw, L !! f = Some raw ∧ ∀ k, k ∈ l ↔ k ∈ raw)
  ∧ (∀ f l, arc_data (read_file fs self fname) !! f = Some l →
       StronglySorted key_lt l ∧ NoDup l
       ∧ ∃ raw, A !! f = Some raw ∧ ∀ k, k ∈ l ↔ k ∈ raw).
Proof.
  intros Hf HL HA.
  assert (Hlines : lines (read_file fs self fname) = list_to_set <$> L).
  { unfold read_file. by rewrite (_read_file_dict_of_lists _ _ _ _ _ Hf HL HA). }
  assert (Harcs : arcs (read_file fs self fname) = list_to_set <$> A).
  { unfold read_file. by rewrite (_read_file_dict_of_lists _ _ _ _ _ Hf HL HA). }
  assert (Hld : ∀ f, line_data (read_file fs self fname) !! f
            = (λ raw, sorted (elements (list_to_set raw : gset key))) <$> L !! f).
  { intros f. rewrite line_data_lookup, Hlines, lookup_fmap.
    by destruct (L !! f). }
  assert (Had : ∀ f, arc_data (read_file fs self fname) !! f
            = (λ raw, sorted (elements (list_to_set raw : gset key))) <$> A !! f).
  { intros f. rewrite arc_data_lookup, Harcs, lookup_fmap.
    by destruct (A !! f). }
  assert (Hspec : ∀ (M : gmap key (list key)) f l,
            (λ raw, sorted (elements (list_to_set raw : gset key))) <$> M !! f = Some l →
            StronglySorted key_lt l ∧ NoDup l
            ∧ ∃ raw, M !! f = Some raw ∧ ∀ k, k ∈ l ↔ k ∈ raw).
  { intros M f l [raw [Hraw ->]]%fmap_Some.
    destruct (sorted_elements_spec (list_to_set raw)) as (Hs & Hn & He).
    split; [done |]. split; [done |]. exists raw. split; [done |].
    intros k. by rewrite He, elem_of_list_to_set. }
  split; [done |]. split; [done |]. split; [done |]. split; [done |].
  split; intros f l Hl; apply Hspec; by rewrite <- ?Hld, <- ?Had.
Qed.

(** A record with unsorted, repeated line numbers and arcs. *)
Definition unsorted_record : gmap key pyval :=
  {[ KStr "lines" := dict_of_lists {[ KStr "a.py" := [KInt 3; KInt 1; KInt 3; KInt 2] ]};
     KStr "arcs" := dict_of_lists {[ KStr "a.py" := [arc 2 3; arc 1 2; arc 2 3] ]} ]}.

Lemma read_file_sorted_sets_witness :
  let fs : filesystem := {[ "/d/.coverage" := File (Pickle (VDict unsorted_record)) ]} in
  let self' := read_file fs (fresh "/d/.coverage") "/d/.coverage" in
  fs !! "/d/.coverage" = Some (File (Pickle (VDict unsorted_record)))
  ∧ dict_get_or_empty unsorted_record "lines"
    = dict_of_lists {[ KStr "a.py" := [KInt 3; KInt 1; KInt 3; KInt 2] ]}
  ∧ dict_get_or_empty unsorted_record "arcs"
    = dict_of_lists {[ KStr "a.py" := [arc 2 3; arc 1 2; arc 2 3] ]}
  ∧ line_data self' !! KStr "a.py" = Some [KInt 1; KInt 2; KInt 3]
  ∧ arc_data self' !! KStr "a.py" = Some [arc 1 2; arc 2 3].
Proof.
  intros fs self'.
  assert (Hf : fs !! "/d/.coverage" = Some (File (Pickle (VDict unsorted_record))))
    by reflexivity.
  assert (HL : dict_get_or_empty unsorted_record "lines"
               = dict_of_lists {[ KStr "a.py" := [KInt 3; KInt 1; KInt 3; KInt 2] ]})
    by reflexivity.
  assert (HA : dict_get_or_empty unsorted_record "arcs"
               = dict_of_lists {[ KStr "a.py" := [arc 2 3; arc 1 2; arc 2 3] ]})
    by reflexivity.
  split; [exact Hf |]. split; [exact HL |]. split; [exact HA |].
  destruct (read_file_sorted_sets fs (fresh "/d/.coverage") "/d/.coverage" _ _ _ Hf HL HA)
    as (_ & _ & Hld & Had & _).
  split.
  - unfold self'. rewrite (Hld (KStr "a.py")). vm_compute. reflexivity.
  - unfold self'. rewrite (Had (KStr "a.py")). vm_compute. reflexivity.
Defined.

(** ** summary *)

(** The key [summary] files an entry under, for a file name that
    [filename_fn] accepts. *)
Definition summary_key (fullpath : bool) (f : key) : key :=
  match filename_fn fullpath f with
  | Ok k => k
  | Raise _ => f
  end.

Lemma summary_loop_Ok fullpath (items : list (key * gset key)) (summ : gmap key nat) :
  Forall (λ fl, ∃ k, filename_fn fullpath fl.1 = Ok k) items →
  summary_loop fullpath items summ
  = Ok (foldl (λ m fl, <[summary_key fullpath fl.1 := size fl.2]> m) summ items).
Proof.
  unfold summary_loop. intros H. revert summ.
  induction H as [| fl items [k Hk] _ IH]; intros summ; simpl; [done |].
  unfold summary_key at 2. rewrite Hk. simpl. apply IH.
Qed.

Lemma summary_fold_lookup (fn : key → key) (items : list (key * gset key))
    (summ : gmap key nat) (b : key) :
  (∀ fl, fl ∈ items → fn fl.1 ≠ b) →
  foldl (λ m fl, <[fn fl.1 := size fl.2]> m) summ items !! b = summ !! b.
Proof.
  revert summ. induction items as [| fl items IH]; intros summ H; simpl; [done |].
  rewrite IH.
  - apply lookup_insert_ne, H, elem_of_cons. by left.
  - intros fl' Hin. apply H, elem_of_cons. by right.
Qed.

Lemma summary_fold_last (fn : key → key) (l1 l2 : list (key * gset key))
    (f : key) (X : gset key) (summ : gmap key nat) :
  (∀ fl, fl ∈ l2 → fn fl.1 ≠ fn f) →
  foldl (λ m fl, <[fn fl.1 := size fl.2]> m) summ (l1 ++ (f, X) :: l2) !! fn f
  = Some (size X).
Proof.
  intros H. rewrite foldl_app. simpl. rewrite summary_fold_lookup by done.
  apply lookup_insert_eq.
Qed.

Lemma summary_fold_Some (fn : key → key) (items : list (key * gset key))
    (summ : gmap key nat) (b : key) (n : nat) :
  foldl (λ m fl, <[fn fl.1 := size fl.2]> m) summ items !! b = Some n →
  summ !! b = Some n ∨ ∃ fl, fl ∈ items ∧ fn fl.1 = b ∧ n = size fl.2.
Proof.
  revert summ. induction items as [| fl items IH]; intros summ; simpl; [by left |].
  intros [H | (fl' & Hin & Hb & Hn)]%IH.
  - destruct (decide (fn fl.1 = b)) as [Hb | Hb].
    + rewrite Hb, lookup_insert_eq in H. injection H as <-.
      right. exists fl. split; [apply elem_of_cons; by left | done].
    + rewrite lookup_insert_ne in H by done. by left.
  - right. exists fl'. split; [apply elem_of_cons; by right | done].
Qed.

Lemma summary_fold_is_Some (fn : key → key) (items : list (key * gset key))
    (summ : gmap key nat) (fl : key * gset key) :
  fl ∈ items →
  is_Some (foldl (λ m fl, <[fn fl.1 := size fl.2]> m) summ items !! fn fl.1).
Proof.
  intros [l1 [l2 ->]]%list_elem_of_split. rewrite foldl_app. simpl.
  assert (Hkeep : ∀ m : gmap key nat, is_Some (m !! fn fl.1) →
            is_Some (foldl (λ m fl0, <[fn fl0.1 := size fl0.2]> m) m l2 !! fn fl.1)).
  { induction l2 as [| fl' l2 IH]; intros m Hm; simpl; [done |].
    apply IH. apply lookup_insert_is_Some.
    destruct (decide (fn fl'.1 = fn fl.1)); [by left | by right]. }
  apply Hkeep. rewrite lookup_insert_eq. by eexists.
Qed.

Lemma elem_of_dict_items {V} (order : list key) (d : gmap key V) (k : key) (v : V) :
  (k, v) ∈ dict_items order d ↔ k ∈ order ∧ d !! k = Some v.
Proof.
  unfold dict_items. rewrite list_elem_of_omap. split.
  - intros (k' & Hin & [v' [Hv [= <- <-]]]%fmap_Some). done.
  - intros [Hin Hv]. exists k. split; [done |]. by rewrite Hv.
Qed.

Lemma dict_items_split {V} (o1 o2 : list key) (d : gmap key V) (k : key) (v : V) :
  d !! k = Some v →
  dict_items (o1 ++ k :: o2) d = (dict_items o1 d ++ (k, v) :: dict_items o2 d)%list.
Proof.
  intros Hv. unfold dict_items. rewrite omap_app. simpl. by rewrite Hv.
Qed.

Lemma summary_items_strings (self : CoverageData) (order : list key) :
  (∀ f, is_Some (lines self !! f) → ∃ p, f = KStr p) →
  ∀ fl, fl ∈ dict_items order (lines self) →
        ∃ p, fl.1 = KStr p ∧ p ∈@{list string} omap (λ k, match k with KStr q => Some q | _ => None end) order
             ∧ lines self !! KStr p = Some fl.2.
Proof.
  intros Hstr [f X] [Hin HX]%elem_of_dict_items.
  destruct (Hstr f) as [p ->]; [by eexists |]. exists p.
  split; [done |]. split; [| done].
  apply list_elem_of_omap. by exists (KStr p).
Qed.

Lemma summary_fullpath self order :
  iteration_order order (lines self) →
  summary self true order = Ok (size <$> lines self).
Proof.
  intros [Hnd Hord]. unfold summary. rewrite summary_loop_Ok.
  - f_equal. apply map_eq. intros k. rewrite lookup_fmap.
    destruct (lines self !! k) as [X |] eqn:HX; simpl.
    + assert (Hin : k ∈ order) by (apply Hord; by eexists).
      apply list_elem_of_split in Hin as (o1 & o2 & ->).
      rewrite (dict_items_split o1 o2 _ k X HX).
      refine (summary_fold_last (summary_key true) _ _ k X ∅ _).
      intros [f Y] [Hin _]%elem_of_dict_items. simpl. intros Heq.
      change (f = k) in Heq. subst f.
      apply NoDup_app in Hnd as (_ & _ & Hnd).
      by apply NoDup_cons in Hnd as [Hnd _].
    + destruct (foldl _ _ _ !! k) as [n |] eqn:Hn; [| done].
      apply summary_fold_Some in Hn as [Hn | ([f Y] & Hin & Hk & _)].
      * by rewrite lookup_empty in Hn.
      * apply elem_of_dict_items in Hin as [_ HY]. change (f = k) in Hk.
        subst f. congruence.
  - apply Forall_forall. intros fl _. by eexists.
Qed.

(** C8: let the line map yield its files in the order [order].  With
    [fullpath] true the summary maps every file to the number of its
    distinct lines.  With [fullpath] false and file names that are strings,
    the summary has an entry exactly for the base names of the files; every
    entry holds the count of a file with that base name, and it is the
    count of the file that comes last among them in [order], so two paths
    with one base name share a single entry. *)
Theorem summary_counts (self : CoverageData) (order : list key) :
  iteration_order order (lines self) →
  summary self true order = Ok (size <$> lines self)
  ∧ ((∀ f, is_Some (lines self !! f) → ∃ p, f = KStr p) →
     ∃ summ,
       summary self false order = Ok summ
       ∧ (∀ b, is_Some (summ !! b) ↔
               ∃ p X, lines self !! KStr p = Some X ∧ b = KStr (os_path_basename p))
       ∧ (∀ b n, summ !! b = Some n →
               ∃ p X, lines self !! KStr p = Some X
                      ∧ b = KStr (os_path_basename p) ∧ n = size X)
       ∧ (∀ (o1 o2 : list key) (p : string) (X : gset key),
            order = (o1 ++ KStr p :: o2)%list →
            lines self !! KStr p = Some X →
            (∀ q, KStr q ∈ o2 → os_path_basename q ≠ os_path_basename p) →
            summ !! KStr (os_path_basename p) = Some (size X))).
Proof.
  intros Hord. split; [by apply summary_fullpath |].
  destruct Hord as [Hnd Hord].
  intros Hstr. eexists. unfold summary.
  assert (Hitems : ∀ fl, fl ∈ dict_items order (lines self) →
            ∃ p, fl.1 = KStr p ∧ lines self !! KStr p = Some fl.2).
  { intros fl Hin.
    destruct (summary_items_strings self order Hstr fl Hin) as (p & ? & _ & ?).
    by exists p. }
  split; [| split; [| split]].
  - apply summary_loop_Ok. apply Forall_forall. intros fl Hin.
    destruct (Hitems fl Hin) as (p & -> & _). by eexists.
  - intros b. split.
    + intros [n Hn]. apply summary_fold_Some in Hn as [Hn | (fl & Hin & <- & _)].
      * by rewrite lookup_empty in Hn.
      * destruct (Hitems fl Hin) as (p & Hp & HX). exists p, fl.2.
        split; [done |]. by rewrite Hp.
    + intros (p & X & HX & ->).
      apply (summary_fold_is_Some (summary_key false) _ ∅ (KStr p, X)).
      apply elem_of_dict_items. split; [| done]. apply Hord. by eexists.
  - intros b n Hn. apply summary_fold_Some in Hn as [Hn | (fl & Hin & <- & ->)].
    + by rewrite lookup_empty in Hn.
    + destruct (Hitems fl Hin) as (p & Hp & HX). exists p, fl.2.
      split; [done |]. by rewrite Hp.
  - intros o1 o2 p X Hsplit HX Hlast. rewrite Hsplit.
    rewrite (dict_items_split o1 o2 _ (KStr p) X HX).
    apply (summary_fold_last (summary_key false) _ _ (KStr p) X ∅).
    intros [f Y] Hin. simpl.
    apply elem_of_dict_items in Hin as [Hin HY].
    destruct (Hstr f) as [q ->]; [by eexists |]. simpl.
    intros [= Heq]. by apply (Hlast q).
Qed.

(** Two files of one base name, [/x/mod.py] with 5 lines and [/y/mod.py]
    with 7. *)
Definition two_mods : CoverageData :=
  add_line_data (fresh "/d/.coverage")
    {[ KStr "/x/mod.py" := ints [1; 2; 3; 4; 5];
       KStr "/y/mod.py" := ints [1; 2; 3; 4; 5; 6; 7] ]}.

(** The entry left under [mod.py] is that of the file that comes last. *)
Example summary_collision :
  match summary two_mods false [KStr "/x/mod.py"; KStr "/y/mod.py"] with
  | Ok summ => Some (map_to_list summ)
  | Raise _ => None
  end = Some [(KStr "mod.py", 7%nat)]
  ∧ match summary two_mods false [KStr "/y/mod.py"; KStr "/x/mod.py"] with
    | Ok summ => Some (map_to_list summ)
    | Raise _ => None
    end = Some [(KStr "mod.py", 5%nat)].
Proof. split; vm_compute; reflexivity. Qed.

Lemma lines_two_mods :
  lines two_mods
  = {[ KStr "/x/mod.py" := ints [1; 2; 3; 4; 5];
       KStr "/y/mod.py" := ints [1; 2; 3; 4; 5; 6; 7] ]}.
Proof. unfold two_mods. rewrite lines_add_line_data. apply merge_sets_empty_l. Qed.

Lemma iteration_order_two_mods :
  iteration_order [KStr "/x/mod.py"; KStr "/y/mod.py"] (lines two_mods).
Proof.
  rewrite lines_two_mods. split.
  - apply NoDup_cons. split; [| apply NoDup_singleton].
    by intros [=]%list_elem_of_singleton.
  - intros k. rewrite lookup_insert_is_Some, !elem_of_cons. split.
    + intros [-> | [-> | Hin]]; [by left | | by apply elem_of_nil in Hin].
      right. split; [done |]. rewrite lookup_singleton_eq. by eexists.
    + intros [<- | [_ [X [<- _]%lookup_singleton_Some]]]; [by left |].
      right. by left.
Qed.

Lemma two_mods_strings : ∀ f, is_Some (lines two_mods !! f) → ∃ p, f = KStr p.
Proof.
  intros f. rewrite lines_two_mods.
  intros [X [[<- _] | [_ [<- _]%lookup_singleton_Some]]%lookup_insert_Some];
    by eexists.
Qed.

Lemma summary_counts_witness :
  iteration_order [KStr "/x/mod.py"; KStr "/y/mod.py"] (lines two_mods)
  ∧ (∀ f, is_Some (lines two_mods !! f) → ∃ p, f = KStr p)
  ∧ ∃ summ,
      summary two_mods false [KStr "/x/mod.py"; KStr "/y/mod.py"] = Ok summ
      ∧ summ !! KStr "mod.py" = Some 7%nat.
Proof.
  split; [exact iteration_order_two_mods |]. split; [exact two_mods_strings |].
  destruct (proj2 (summary_counts two_mods _ iteration_order_two_mods)
              two_mods_strings) as (summ & Hs & _ & _ & Hlast).
  exists summ. split; [exact Hs |].
  assert (Hsize : size (ints [1; 2; 3; 4; 5; 6; 7]) = 7%nat)
    by (vm_compute; reflexivity).
  rewrite <- Hsize.
  apply (Hlast [KStr "/x/mod.py"] [] "/y/mod.py").
  - reflexivity.
  - rewrite lines_two_mods. rewrite lookup_insert_ne by done.
    apply lookup_singleton_eq.
  - intros q Hq. exfalso. exact (proj1 (elem_of_nil (KStr q)) Hq).
Defined.

(** * Further properties of the store *)

(** ** Accumulation *)

Lemma executed_arcs_add self d f :
  executed_arcs (add_arc_data self d) f
  = executed_arcs self f ∪ default ∅ (d !! f).
Proof.
  unfold executed_arcs. rewrite arcs_add_arc_data, lookup_merge_sets.
  destruct (arcs self !! f), (d !! f); simpl; set_solver.
Qed.

(** X1: two [add_arc_data] calls that bring the arc sets [A] and [B] for the
    file [f] leave [executed_arcs f] equal to the previous set united with
    [A] and [B]; the calls commute, a repeated call changes nothing, and
    the line map is not touched. *)
Theorem add_arc_data_union (self : CoverageData) (d1 d2 : gmap key (gset key))
    (f : key) (A B : gset key) :
  d1 !! f = Some A →
  d2 !! f = Some B →
  executed_arcs (add_arc_data (add_arc_data self d1) d2) f
    = executed_arcs self f ∪ A ∪ B
  ∧ add_arc_data (add_arc_data self d1) d2
    = add_arc_data (add_arc_data self d2) d1
  ∧ add_arc_data (add_arc_data self d1) d1 = add_arc_data self d1
  ∧ lines (add_arc_data (add_arc_data self d1) d2) = lines self.
Proof.
  intros HA HB. split; [| split; [| split]].
  - by rewrite !executed_arcs_add, HA, HB.
  - rewrite !add_arc_data_merge. unfold set_arcs, set_lines_arcs; simpl.
    f_equal. rewrite !merge_sets_assoc. f_equal. apply merge_sets_comm.
  - rewrite !add_arc_data_merge. unfold set_arcs, set_lines_arcs; simpl.
    f_equal. apply merge_sets_absorb.
  - done.
Qed.

Lemma add_arc_data_union_witness :
  let self := fresh "/d/.coverage" in
  let d1 : gmap key (gset key) := {[ KStr "a.py" := {[ arc 1 2 ]} ]} in
  let d2 : gmap key (gset key) := {[ KStr "a.py" := {[ arc 2 3 ]} ]} in
  d1 !! KStr "a.py" = Some {[ arc 1 2 ]}
  ∧ d2 !! KStr "a.py" = Some {[ arc 2 3 ]}
  ∧ executed_arcs (add_arc_data (add_arc_data self d1) d2) (KStr "a.py")
    = executed_arcs self (KStr "a.py") ∪ {[ arc 1 2 ]} ∪ {[ arc 2 3 ]}.
Proof.
  intros self d1 d2.
  assert (H1 : d1 !! KStr "a.py" = Some {[ arc 1 2 ]}) by apply lookup_singleton_eq.
  assert (H2 : d2 !! KStr "a.py" = Some {[ arc 2 3 ]}) by apply lookup_singleton_eq.
  split; [exact H1 |]. split; [exact H2 |].
  exact (proj1 (add_arc_data_union self d1 d2 (KStr "a.py") _ _ H1 H2)).
Defined.

(** X2: accumulation only adds.  After [add_line_data self d] a line is
    executed in [f] exactly when it was before or [d] brings it for [f];
    every file known before is still known; a file that [d] does not
    mention keeps its entry as it was; the arc map and the configuration
    are untouched; and an empty [d] changes nothing at all. *)
Theorem add_line_data_only_adds (self : CoverageData) (d : gmap key (gset key))
    (f : key) :
  (∀ k, k ∈ executed_lines (add_line_data self d) f ↔
        k ∈ executed_lines self f ∨ ∃ X, d !! f = Some X ∧ k ∈ X)
  ∧ (f ∈ executed_files (add_line_data self d) ↔
       f ∈ executed_files self ∨ is_Some (d !! f))
  ∧ (d !! f = None → lines (add_line_data self d) !! f = lines self !! f)
  ∧ arcs (add_line_data self d) = arcs self
  ∧ filename (add_line_data self d) = filename self
  ∧ add_line_data self ∅ = self.
Proof.
  split; [| split; [| split; [| split; [| split]]]].
  - intros k. rewrite executed_lines_add, elem_of_union.
    destruct (d !! f) as [X |]; simpl.
    + split; intros [H | H]; auto.
      * right. by exists X.
      * destruct H as (Y & [= <-] & H). by right.
    + split; intros [H | H]; auto.
      * by apply not_elem_of_empty in H.
      * by destruct H as (Y & ? & _).
  - rewrite !elem_of_executed_files, lines_add_line_data, lookup_merge_sets.
    destruct (lines self !! f), (d !! f); simpl; split;
      first [ by intros _; left; eexists | by intros _; right; eexists
            | by intros _; eexists | by intros [? ?]
            | by intros [[? ?] | [? ?]] ].
  - intros Hd. rewrite lines_add_line_data, lookup_merge_sets, Hd.
    by destruct (lines self !! f).
  - done.
  - done.
  - rewrite add_line_data_merge, merge_sets_empty_r. by destruct self.
Qed.

(** ** Queries *)

(** X3: for any store, [line_data()] has an entry exactly for the executed
    files; the list of a file is strictly ascending, holds exactly the
    lines executed in it, and is as long as the count that
    [summary(fullpath=True)] gives for the file, whatever the order in
    which the line map yields its files. *)
Theorem line_data_lists_executed_lines (self : CoverageData) (f : key) :
  (is_Some (line_data self !! f) ↔ f ∈ executed_files self)
  ∧ (∀ l, line_data self !! f = Some l →
       StronglySorted key_lt l
       ∧ (∀ k, k ∈ l ↔ k ∈ executed_lines self f)
       ∧ ∀ order, iteration_order order (lines self) →
           ∃ summ, summary self true order = Ok summ
                   ∧ summ !! f = Some (length l)).
Proof.
  rewrite line_data_lookup, elem_of_executed_files.
  unfold executed_lines. split.
  - by rewrite fmap_is_Some.
  - intros l [X [HX ->]]%fmap_Some. rewrite HX. simpl.
    destruct (sorted_elements_spec X) as (Hs & _ & He).
    split; [done |]. split; [done |]. intros order Hord.
    rewrite summary_fullpath by done. eexists. split; [done |].
    rewrite lookup_fmap, HX. simpl. f_equal.
    by rewrite sorted_Permutation.
Qed.

(** X4: for any store, [arc_data()] has an entry exactly for the files of the
    arc map; the list of a file is strictly ascending, free of duplicates,
    and holds exactly the arcs of [executed_arcs]. *)
Theorem arc_data_lists_executed_arcs (self : CoverageData) (f : key) :
  (is_Some (arc_data self !! f) ↔ is_Some (arcs self !! f))
  ∧ (∀ l, arc_data self !! f = Some l →
       StronglySorted key_lt l ∧ NoDup l
       ∧ ∀ k, k ∈ l ↔ k ∈ executed_arcs self f).
Proof.
  rewrite arc_data_lookup. unfold executed_arcs. split.
  - by rewrite fmap_is_Some.
  - intros l [X [HX ->]]%fmap_Some. rewrite HX. simpl.
    apply sorted_elements_spec.
Qed.

(** ** Storage at the store's own path *)




(** X6: with file storage switched off by [usefile], the maps stay as they
    are, [write] leaves the disk alone, and [read] empties the store
    whatever the disk holds: what was collected is gone. *)
Theorem usefile_off_write_read (fs : filesystem) (self : CoverageData) :
  lines (usefile self false) = lines self
  ∧ arcs (usefile self false) = arcs self
  ∧ write fs (usefile self false) = Ok fs
  ∧ lines (read fs (usefile self false)) = ∅
  ∧ arcs (read fs (usefile self false)) = ∅
  ∧ executed_files (read fs (usefile self false)) = []
  ∧ usefile (usefile self false) (use_file self) = self.
Proof.
  repeat split; try done. by destruct self.
Qed.

(** X7: a write over a written file overwrites it.  After [write_file] of
    store [a] has returned, [write_file] of store [b] to the same path
    returns too, leaves the disk exactly as a single write of [b] would
    have, and reading the path then gives the maps of [b] only. *)
Theorem write_file_overwrites (fs fs1 : filesystem) (a b : CoverageData)
    (fname : string) :
  write_file fs a fname = Ok fs1 →
  ∃ fs2,
    write_file fs1 b fname = Ok fs2
    ∧ write_file fs b fname = Ok fs2
    ∧ _read_file fs2 fname = (lines b, arcs b).
Proof.
  unfold write_file at 1. intros Ha.
  destruct (open_wb_write_again fs fname _ (pickle_dump (VDict (file_data b))) fs1 Ha)
    as [H1 H2].
  eexists. split; [exact H1 |]. split; [exact H2 |].
  by apply (_read_file_written _ _ _ _ H2).
Qed.

Lemma write_file_overwrites_witness :
  let a := add_line_data (fresh "/d/.coverage") {[ KStr "a.py" := ints [1; 2] ]} in
  let b := add_line_data (fresh "/d/.coverage") {[ KStr "b.py" := ints [7] ]} in
  ∃ fs1,
    write_file empty_dir_disk a "/d/.coverage" = Ok fs1
    ∧ ∃ fs2,
        write_file fs1 b "/d/.coverage" = Ok fs2
        ∧ _read_file fs2 "/d/.coverage" = (lines b, arcs b).
Proof.
  intros a b.
  destruct (open_wb_write_returns empty_dir_disk "/d/.coverage"
              (pickle_dump (VDict (file_data a))) writable_empty_dir_disk)
    as [fs1 H1].
  exists fs1. split; [exact H1 |].
  destruct (write_file_overwrites empty_dir_disk fs1 a b "/d/.coverage" H1)
    as (fs2 & H2 & _ & H3).
  exists fs2. split; [exact H2 | exact H3].
Defined.

Lemma _read_file_missing fs fname :
  fs !! fname = None → _read_file fs fname = (∅, ∅).
Proof. intros H. unfold _read_file. by rewrite raw_data_cases, H. Qed.

Lemma erase_Ok_inv fs self fs' self' :
  erase fs self = Ok (fs', self') →
  self' = set_lines_arcs self ∅ ∅
  ∧ ((use_file self = true ∧ filename self ≠ EmptyString
      ∧ (∃ c, fs !! filename self = Some (File c))
      ∧ fs' = delete (filename self) fs)
     ∨ ((use_file self = false ∨ filename self = EmptyString
         ∨ fs !! filename self = None)
        ∧ fs' = fs)).
Proof.
  unfold erase. destruct (use_file self) eqn:Hu; simpl.
  - destruct (String.eqb (filename self) EmptyString) eqn:He; simpl.
    + intros [= <- <-]. split; [done |]. right. split; [| done].
      right. left. by apply String.eqb_eq.
    + apply String.eqb_neq in He. unfold os_path_exists, os_remove.
      destruct (fs !! filename self) as [[names | c] |] eqn:Hf; simpl.
      * done.
      * intros [= <- <-]. split; [done |]. left.
        split; [done |]. split; [done |]. split; [by eexists | done].
      * intros [= <- <-]. split; [done |]. right. split; [| done]. by do 2 right.
  - intros [= <- <-]. split; [done |]. right. split; [by left | done].
Qed.

(** X8: once [erase] has returned, erasing again succeeds and changes neither
    the disk nor the store: no file is left for [os.remove] to fail on.
    For a store with a file name, a [read] after the erase finds nothing
    and leaves the store empty. *)
Theorem erase_twice (fs fs1 : filesystem) (self self1 : CoverageData) :
  erase fs self = Ok (fs1, self1) →
  erase fs1 self1 = Ok (fs1, self1)
  ∧ (filename self ≠ EmptyString → read fs1 self1 = self1).
Proof.
  intros [-> Hcases]%erase_Ok_inv. unfold erase, read. simpl.
  destruct Hcases as [(Hu & Hne & [c Hc] & ->) | [Hcase ->]].
  - rewrite Hu. apply String.eqb_neq in Hne as Hne'. rewrite Hne'. simpl.
    unfold os_path_exists. rewrite bool_decide_eq_false_2.
    + simpl. split; [done |]. intros _. unfold read_file.
      rewrite _read_file_missing by apply lookup_delete_eq. done.
    + rewrite lookup_delete_eq. by intros [? ?].
  - destruct Hcase as [Hu | [He | Hnone]].
    + rewrite Hu. simpl. done.
    + destruct (use_file self); simpl; [| done].
      rewrite He. simpl. done.
    + destruct (use_file self); simpl; [| done].
      unfold os_path_exists. rewrite bool_decide_eq_false_2.
      * rewrite andb_false_r. simpl. split; [done |]. intros _.
        unfold read_file. by rewrite _read_file_missing.
      * rewrite Hnone. by intros [? ?].
Qed.

Lemma erase_twice_witness :
  let fs : filesystem := {[ "/d/.coverage" := File Garbled ]} in
  let self := add_line_data (fresh "/d/.coverage") {[ KStr "a.py" := ints [1] ]} in
  let fs1 : filesystem := delete "/d/.coverage" fs in
  let self1 := set_lines_arcs self ∅ ∅ in
  erase fs self = Ok (fs1, self1)
  ∧ erase fs1 self1 = Ok (fs1, self1)
  ∧ read fs1 self1 = self1.
Proof.
  intros fs self fs1 self1.
  assert (H : erase fs self = Ok (fs1, self1)).
  { unfold erase, os_path_exists, os_remove, fs. simpl.
    rewrite lookup_singleton_eq. rewrite bool_decide_eq_true_2 by by eexists.
    reflexivity. }
  split; [exact H |].
  destruct (erase_twice fs fs1 self self1 H) as [H2 Hr].
  split; [exact H2 |]. apply Hr. discriminate.
Defined.

(** ** More on decoding *)

Lemma _read_file_of_items fs fname d :
  fs !! fname = Some (File (Pickle (VDict d))) →
  _read_file fs fname =
    match unpack_item (dict_get_or_empty d "lines") with
    | Raise _ => (∅, ∅)
    | Ok L => (L, match unpack_item (dict_get_or_empty d "arcs") with
                  | Ok A => A
                  | Raise _ => ∅
                  end)
    end.
Proof.
  intros Hf. unfold _read_file. rewrite raw_data_cases, Hf.
  destruct (unpack_item (dict_get_or_empty d "lines")); [| done].
  by destruct (unpack_item (dict_get_or_empty d "arcs")).
Qed.

(** X9: decoding looks at the 'lines' and 'arcs' items of the record and at
    nothing else: two pickled dicts that agree on these two keys decode
    alike, whatever other keys they hold; a dict without the two keys
    decodes to empty maps; and [read_file] keeps the collector, the flag
    and the file name of the store it reads into. *)
Theorem _read_file_ignores_other_keys (fs fs' : filesystem) (fname fname' : string)
    (d d' : gmap key pyval) (self : CoverageData) :
  fs !! fname = Some (File (Pickle (VDict d))) →
  fs' !! fname' = Some (File (Pickle (VDict d'))) →
  d !! KStr "lines" = d' !! KStr "lines" →
  d !! KStr "arcs" = d' !! KStr "arcs" →
  _read_file fs fname = _read_file fs' fname'
  ∧ (d !! KStr "lines" = None → d !! KStr "arcs" = None →
     _read_file fs fname = (∅, ∅))
  ∧ collector (read_file fs self fname) = collector self
  ∧ use_file (read_file fs self fname) = use_file self
  ∧ filename (read_file fs self fname) = filename self.
Proof.
  intros Hf Hf' Hl Ha.
  rewrite (_read_file_of_items _ _ _ Hf), (_read_file_of_items _ _ _ Hf').
  unfold dict_get_or_empty. rewrite Hl, Ha. split; [done |]. split.
  - intros Hnl Hna. rewrite Hnl, Hna. simpl.
    by rewrite unpack_item_empty.
  - unfold read_file. by destruct (_read_file fs fname).
Qed.

Lemma _read_file_ignores_other_keys_witness :
  let d : gmap key pyval :=
    {[ KStr "lines" := dict_of_lists {[ KStr "a.py" := [KInt 1] ]} ]} in
  let d' : gmap key pyval := <[KStr "collector" := VStr "coverage v3"]> d in
  let fs : filesystem := {[ "/d/old" := File (Pickle (VDict d)) ]} in
  let fs' : filesystem := {[ "/d/new" := File (Pickle (VDict d')) ]} in
  fs !! "/d/old" = Some (File (Pickle (VDict d)))
  ∧ fs' !! "/d/new" = Some (File (Pickle (VDict d')))
  ∧ d !! KStr "lines" = d' !! KStr "lines"
  ∧ d !! KStr "arcs" = d' !! KStr "arcs"
  ∧ _read_file fs "/d/old" = _read_file fs' "/d/new".
Proof.
  intros d d' fs fs'.
  assert (Hf : fs !! "/d/old" = Some (File (Pickle (VDict d))))
    by apply lookup_singleton_eq.
  assert (Hf' : fs' !! "/d/new" = Some (File (Pickle (VDict d'))))
    by apply lookup_singleton_eq.
  assert (Hl : d !! KStr "lines" = d' !! KStr "lines").
  { unfold d'. by rewrite lookup_insert_ne. }
  assert (Ha : d !! KStr "arcs" = d' !! KStr "arcs").
  { unfold d'. by rewrite lookup_insert_ne. }
  split; [exact Hf |]. split; [exact Hf' |]. split; [exact Hl |].
  split; [exact Ha |].
  exact (proj1 (_read_file_ignores_other_keys fs fs' "/d/old" "/d/new" d d'
                  (fresh "/d/old") Hf Hf' Hl Ha)).
Defined.

Lemma dict_fromkeys_unhashable (xs : list pyval) (x : pyval) :
  x ∈ xs → to_key x = None → dict_fromkeys (VList xs) = Raise TypeError.
Proof.
  intros Hin Hx. unfold dict_fromkeys. simpl.
  assert (Hh : py_hash x = Raise TypeError) by (unfold py_hash; by rewrite Hx).
  assert (Hc : comprehension py_hash xs = Raise TypeError).
  { induction xs as [| y xs IH]; [by apply elem_of_nil in Hin |].
    cbn [comprehension]. apply elem_of_cons in Hin as [<- | Hin].
    - by rewrite Hh.
    - destruct (py_hash y) as [k | e] eqn:E; simpl.
      + by rewrite IH.
      + unfold py_hash in E. destruct (to_key y); congruence. }
  by rewrite Hc.
Qed.

(** X10: decoding an item is all or nothing.  If one file of the 'lines' item
    has a sequence that cannot be turned into a set (here: a list with an
    unhashable element, such as a list), [_read_file] returns empty maps:
    the lines of the other files and the whole 'arcs' item are dropped
    with it. *)
Theorem _read_file_bad_sequence (fs : filesystem) (fname : string)
    (d m : gmap key pyval) (f : key) (xs : list pyval) (x : pyval) :
  fs !! fname = Some (File (Pickle (VDict d))) →
  d !! KStr "lines" = Some (VDict m) →
  m !! f = Some (VList xs) →
  x ∈ xs →
  to_key x = None →
  _read_file fs fname = (∅, ∅).
Proof.
  intros Hf Hl Hm Hin Hx. rewrite (_read_file_of_items _ _ _ Hf).
  unfold dict_get_or_empty at 1. rewrite Hl. simpl.
  destruct (unpack_item_Raise m f (VList xs) TypeError Hm) as [e ->]; [| done].
  by apply (dict_fromkeys_unhashable xs x).
Qed.

Lemma _read_file_bad_sequence_witness :
  let m : gmap key pyval :=
    {[ KStr "a.py" := VList [VInt 1; VList []]; KStr "b.py" := VList [VInt 2] ]} in
  let d : gmap key pyval := {[ KStr "lines" := VDict m ]} in
  let fs : filesystem := {[ "/d/.coverage" := File (Pickle (VDict d)) ]} in
  fs !! "/d/.coverage" = Some (File (Pickle (VDict d)))
  ∧ d !! KStr "lines" = Some (VDict m)
  ∧ m !! KStr "a.py" = Some (VList [VInt 1; VList []])
  ∧ VList [] ∈ [VInt 1; VList []]
  ∧ to_key (VList []) = None
  ∧ _read_file fs "/d/.coverage" = (∅, ∅).
Proof.
  intros m d fs.
  assert (Hf : fs !! "/d/.coverage" = Some (File (Pickle (VDict d))))
    by apply lookup_singleton_eq.
  assert (Hl : d !! KStr "lines" = Some (VDict m)) by apply lookup_singleton_eq.
  assert (Hm : m !! KStr "a.py" = Some (VList [VInt 1; VList []]))
    by apply lookup_insert_eq.
  assert (Hin : VList [] ∈ [VInt 1; VList []]).
  { apply elem_of_cons. right. apply elem_of_cons. by left. }
  assert (Hx : to_key (VList []) = None) by reflexivity.
  split; [exact Hf |]. split; [exact Hl |]. split; [exact Hm |].
  split; [exact Hin |]. split; [exact Hx |].
  exact (_read_file_bad_sequence fs "/d/.coverage" d m (KStr "a.py") _ _
           Hf Hl Hm Hin Hx).
Defined.

(** ** More on combine *)

Lemma elem_of_merge_sets (a b : gmap key (gset key)) (f k : key) :
  k ∈ default ∅ (merge_sets a b !! f)
  ↔ k ∈ default ∅ (a !! f) ∨ k ∈ default ∅ (b !! f).
Proof.
  rewrite lookup_merge_sets. destruct (a !! f), (b !! f); simpl; set_solver.
Qed.

Lemma elem_of_siblings_lines fs data_dir local names (f k : key) :
  k ∈ default ∅ (siblings_lines fs data_dir local names !! f)
  ↔ ∃ name, name ∈ names
            ∧ k ∈ default ∅ (contribution fs data_dir local name !! f).
Proof.
  unfold siblings_lines. induction names as [| n names IH]; simpl.
  - rewrite lookup_empty. simpl. split; [set_solver |].
    intros (name & Hin & _). by apply elem_of_nil in Hin.
  - rewrite elem_of_merge_sets, IH. split.
    + intros [H | (name & Hin & H)].
      * exists n. split; [apply elem_of_cons; by left | done].
      * exists name. split; [apply elem_of_cons; by right | done].
    + intros (name & [-> | Hin]%elem_of_cons & H); [by left |].
      right. by exists name.
Qed.

(** X11: when the listed directory exists, combine returns, and in the store
    it returns a line is executed in [f] exactly when it was before, or
    some listed entry whose name starts with the prefix decodes to a line
    map that has it for [f].  Nothing is lost and nothing else comes in. *)
Theorem combine_membership (fs : filesystem) (self : CoverageData)
    (names : list string) :
  fs !! listed_dir self = Some (Dir names) →
  ∃ self',
    combine_parallel_data fs self = Ok self'
    ∧ ∀ f k,
        k ∈ executed_lines self' f ↔
          k ∈ executed_lines self f
          ∨ ∃ name, name ∈ names
              ∧ String.prefix (os_path_split (filename self)).2 name = true
              ∧ k ∈ default ∅
                    ((_read_file fs
                        (os_path_join (os_path_split (filename self)).1 name)).1
                       !! f).
Proof.
  intros Hdir. rewrite combine_parallel_data_unfold. unfold os_listdir.
  rewrite Hdir. simpl. eexists. split; [done |]. intros f k.
  unfold executed_lines. simpl. rewrite elem_of_merge_sets, elem_of_siblings_lines.
  split; (intros [H | (name & Hin & H)]; [by left | right; exists name]).
  - unfold contribution in H.
    destruct (String.prefix _ name); [done |].
    rewrite lookup_empty in H. by apply not_elem_of_empty in H.
  - destruct H as [Hp H]. split; [done |]. unfold contribution. by rewrite Hp.
Qed.

Lemma combine_membership_witness :
  example_disk !! listed_dir (fresh "/d/cov")
    = Some (Dir ["cov.1"; "other"; "cov.2"; "cov.3"])
  ∧ ∃ self', combine_parallel_data example_disk (fresh "/d/cov") = Ok self'.
Proof.
  assert (Hdir : example_disk !! listed_dir (fresh "/d/cov")
                 = Some (Dir ["cov.1"; "other"; "cov.2"; "cov.3"])) by reflexivity.
  split; [exact Hdir |].
  destruct (combine_membership example_disk (fresh "/d/cov") _ Hdir) as (self' & H & _).
  exists self'. exact H.
Defined.

(** The ways a directory entry can be of no use to combine: its name does
    not start with the prefix, or its path is missing, a directory, or a
    file that does not unpickle. *)
Definition unusable_entry (fs : filesystem) (data_dir local name : string) : Prop :=
  String.prefix local name = false
  ∨ fs !! os_path_join data_dir name = None
  ∨ (∃ names, fs !! os_path_join data_dir name = Some (Dir names))
  ∨ fs !! os_path_join data_dir name = Some (File Garbled).

Lemma contribution_unusable fs data_dir local name :
  unusable_entry fs data_dir local name →
  contribution fs data_dir local name = ∅.
Proof.
  unfold contribution, _read_file. rewrite raw_data_cases.
  intros [-> | [-> | [[names ->] | ->]]]; [done | ..];
    by destruct (String.prefix local name).
Qed.

(** X12: an unusable entry does not disturb combine: the outcome is the one
    obtained with that entry absent from the directory listing. *)
Theorem combine_skips_unusable_entry (fs : filesystem) (self : CoverageData)
    (before after : list string) (name : string) :
  fs !! listed_dir self = Some (Dir (before ++ name :: after)%list) →
  unusable_entry fs (os_path_split (filename self)).1
    (os_path_split (filename self)).2 name →
  combine_parallel_data fs self
  = combine_parallel_data (<[listed_dir self := Dir (before ++ after)%list]> fs) self.
Proof.
  intros Hdir Hbad. rewrite !combine_parallel_data_unfold. unfold os_listdir.
  rewrite Hdir, lookup_insert_eq. simpl. do 3 f_equal.
  rewrite (siblings_lines_relist fs _ _ (before ++ after)%list _ _ _ Hdir).
  unfold siblings_lines. rewrite !foldr_app. simpl.
  by rewrite (contribution_unusable _ _ _ _ Hbad), merge_sets_empty_l.
Qed.

Lemma combine_skips_unusable_entry_witness :
  example_disk !! listed_dir (fresh "/d/cov")
    = Some (Dir (["cov.1"; "other"; "cov.2"] ++ "cov.3" :: [])%list)
  ∧ unusable_entry example_disk (os_path_split (filename (fresh "/d/cov"))).1
      (os_path_split (filename (fresh "/d/cov"))).2 "cov.3"
  ∧ combine_parallel_data example_disk (fresh "/d/cov")
    = combine_parallel_data
        (<[listed_dir (fresh "/d/cov") := Dir (["cov.1"; "other"; "cov.2"] ++ [])%list]>
           example_disk)
        (fresh "/d/cov").
Proof.
  assert (Hdir : example_disk !! listed_dir (fresh "/d/cov")
                 = Some (Dir (["cov.1"; "other"; "cov.2"] ++ "cov.3" :: [])%list))
    by reflexivity.
  assert (Hbad : unusable_entry example_disk
                   (os_path_split (filename (fresh "/d/cov"))).1
                   (os_path_split (filename (fresh "/d/cov"))).2 "cov.3").
  { do 3 right. reflexivity. }
  split; [exact Hdir |]. split; [exact Hbad |].
  exact (combine_skips_unusable_entry example_disk (fresh "/d/cov") _ _ _ Hdir Hbad).
Defined.

(** ** More on summary *)

Lemma summary_loop_Raise (items : list (key * gset key)) (summ : gmap key nat)
    (fl : key * gset key) :
  fl ∈ items →
  (∀ p, fl.1 ≠ KStr p) →
  summary_loop false items summ = Raise TypeError.
Proof.
  intros Hin Hns. unfold summary_loop. revert summ.
  induction items as [| fl' items IH]; intros summ; [by apply elem_of_nil in Hin |].
  cbn [for_each]. apply elem_of_cons in Hin as [<- | Hin].
  - unfold filename_fn. destruct fl.1 as [| z | p | xs] eqn:E; try done.
    by destruct (Hns p).
  - unfold filename_fn at 1. destruct fl'.1; simpl; try done. by apply IH.
Qed.

(** X13: a file name that is not a string (a record unpickled from disk may
    bring one) makes [summary(fullpath=False)] raise TypeError, as
    [os.path.basename] needs a string; [summary(fullpath=True)] still
    returns the count of every file. *)
Theorem summary_non_string_name (self : CoverageData) (order : list key)
    (f : key) (X : gset key) :
  iteration_order order (lines self) →
  lines self !! f = Some X →
  (∀ p, f ≠ KStr p) →
  summary self false order = Raise TypeError
  ∧ ∃ summ, summary self true order = Ok summ ∧ summ !! f = Some (size X).
Proof.
  intros Hord Hf Hns. split.
  - apply (summary_loop_Raise _ _ (f, X)); [| done].
    apply elem_of_dict_items. split; [| done]. apply Hord. by eexists.
  - rewrite summary_fullpath by done. eexists. split; [done |].
    by rewrite lookup_fmap, Hf.
Qed.

Lemma summary_non_string_name_witness :
  let self := add_line_data (fresh "/d/.coverage") {[ KInt 7 := ints [1; 2] ]} in
  iteration_order [KInt 7] (lines self)
  ∧ lines self !! KInt 7 = Some (ints [1; 2])
  ∧ (∀ p, KInt 7 ≠ KStr p)
  ∧ summary self false [KInt 7] = Raise TypeError.
Proof.
  intros self.
  assert (Hl : lines self = {[ KInt 7 := ints [1; 2] ]}).
  { unfold self. rewrite lines_add_line_data. apply merge_sets_empty_l. }
  assert (Hord : iteration_order [KInt 7] (lines self)).
  { rewrite Hl. split; [apply NoDup_singleton |]. intros k.
    rewrite list_elem_of_singleton. split.
    - intros ->. rewrite lookup_singleton_eq. by eexists.
    - by intros [X [<- _]%lookup_singleton_Some]. }
  assert (Hf : lines self !! KInt 7 = Some (ints [1; 2])).
  { rewrite Hl. apply lookup_singleton_eq. }
  assert (Hns : ∀ p, KInt 7 ≠ KStr p) by (intros p; discriminate).
  split; [exact Hord |]. split; [exact Hf |]. split; [exact Hns |].
  exact (proj1 (summary_non_string_name self _ (KInt 7) _ Hord Hf Hns)).
Defined.

(** X14: when the file names are strings and no two of them share a base name,
    [summary(fullpath=False)] loses nothing: it has the count of every
    file under its base name, and as many entries as there are files,
    whatever the order in which the line map yields them. *)
Theorem summary_without_collision (self : CoverageData) (order : list key) :
  iteration_order order (lines self) →
  (∀ f, is_Some (lines self !! f) → ∃ p, f = KStr p) →
  (∀ p q, is_Some (lines self !! KStr p) → is_Some (lines self !! KStr q) →
          os_path_basename p = os_path_basename q → p = q) →
  ∃ summ,
    summary self false order = Ok summ
    ∧ (∀ p X, lines self !! KStr p = Some X →
              summ !! KStr (os_path_basename p) = Some (size X))
    ∧ size summ = length (executed_files self).
Proof.
  intros [Hnd Hord] Hstr Hinj.
  assert (Hitems : ∀ fl, fl ∈ dict_items order (lines self) →
            ∃ p, fl.1 = KStr p ∧ lines self !! KStr p = Some fl.2).
  { intros fl Hin.
    destruct (summary_items_strings self order Hstr fl Hin) as (p & ? & _ & ?).
    by exists p. }
  assert (Hok : summary self false order
                = Ok (foldl (λ m fl, <[summary_key false fl.1 := size fl.2]> m) ∅
                        (dict_items order (lines self)))).
  { apply summary_loop_Ok. apply Forall_forall. intros fl Hin.
    destruct (Hitems fl Hin) as (p & -> & _). by eexists. }
  eexists. split; [exact Hok |]. split.
  - intros p X HX.
    assert (Hin : KStr p ∈ order) by (apply Hord; by eexists).
    apply list_elem_of_split in Hin as (o1 & o2 & Hsplit). rewrite Hsplit.
    rewrite (dict_items_split o1 o2 _ (KStr p) X HX).
    apply (summary_fold_last (summary_key false) _ _ (KStr p) X ∅).
    intros [f Y] [Hin2 HY]%elem_of_dict_items. simpl.
    destruct (Hstr f) as [q ->]; [by eexists |]. simpl.
    intros [= Hb]. assert (q = p) as ->.
    { apply Hinj; [by eexists | by eexists | done]. }
    rewrite Hsplit in Hnd. apply NoDup_app in Hnd as (_ & _ & Hnd).
    by apply NoDup_cons in Hnd as [Hnd _].
  - assert (Hlen : length (executed_files self)
                   = length (dict_items order (lines self))).
    { unfold executed_files. rewrite length_fmap.
      apply Permutation_length. apply NoDup_Permutation.
      - apply NoDup_map_to_list.
      - apply (NoDup_fmap_1 fst).
        replace ((dict_items order (lines self)).*1) with order; [done |].
        clear Hnd Hitems Hok. revert Hord. generalize (lines self). intros m Hm.
        assert (Hall : ∀ k, k ∈ order → is_Some (m !! k)) by (intros k; apply Hm).
        clear Hm. induction order as [| k order IH]; [done |].
        destruct (Hall k) as [v Hv]; [apply elem_of_cons; by left |].
        unfold dict_items. simpl. rewrite Hv. simpl. f_equal.
        apply IH. intros k' Hk'. apply Hall, elem_of_cons. by right.
      - intros [f Y]. rewrite elem_of_map_to_list, elem_of_dict_items.
        split; [| by intros [_ ?]]. intros HY. split; [| done].
        apply Hord. by eexists. }
    rewrite Hlen.
    assert (Hgen : ∀ (l : list (key * gset key)) (m : gmap key nat),
              NoDup ((λ fl, summary_key false fl.1) <$> l) →
              (∀ fl, fl ∈ l → m !! summary_key false fl.1 = None) →
              size (foldl (λ m fl, <[summary_key false fl.1 := size fl.2]> m) m l)
              = (size m + length l)%nat).
    { induction l as [| fl l IH]; intros m Hnd' Hfresh; simpl; [lia |].
      rewrite fmap_cons in Hnd'. apply NoDup_cons in Hnd' as [Hhd Hnd'].
      rewrite IH.
      - rewrite map_size_insert_None; [lia |].
        apply Hfresh, elem_of_cons. by left.
      - done.
      - intros fl' Hin'. rewrite lookup_insert_ne.
        + apply Hfresh, elem_of_cons. by right.
        + intros Heq. apply Hhd. rewrite Heq. apply list_elem_of_fmap.
          by exists fl'. }
    rewrite Hgen.
    + by rewrite map_size_empty.
    + apply NoDup_fmap_2_strong.
      * intros fl1 fl2 Hin1 Hin2 Heq.
        destruct (Hitems _ Hin1) as (p & Hp & HX1).
        destruct (Hitems _ Hin2) as (q & Hq & HX2).
        rewrite Hp, Hq in Heq. simpl in Heq. injection Heq as Heq.
        assert (p = q) as -> by (apply Hinj; [by eexists | by eexists | done]).
        destruct fl1 as [f1 X1], fl2 as [f2 X2]. simpl in *. subst. congruence.
      * apply (NoDup_fmap_1 fst).
        assert (Hsub : ∀ o, NoDup o → NoDup (dict_items o (lines self)).*1).
        { clear. intros o. induction 1 as [| k o Hk Hnd IH]; [constructor |].
          unfold dict_items. simpl. destruct (lines self !! k) as [v |]; simpl;
            [| exact IH].
          constructor; [| exact IH]. intros Hin. apply Hk.
          apply list_elem_of_fmap in Hin as ([k' v'] & -> & Hin).
          by apply elem_of_dict_items in Hin as [? _]. }
        by apply Hsub.
    + intros fl _. apply lookup_empty.
Qed.

(** Two files with different base names. *)
Definition two_files : CoverageData :=
  add_line_data (fresh "/d/.coverage")
    {[ KStr "/x/a.py" := ints [1; 2]; KStr "/y/b.py" := ints [5] ]}.

Lemma lines_two_files :
  lines two_files = {[ KStr "/x/a.py" := ints [1; 2]; KStr "/y/b.py" := ints [5] ]}.
Proof. unfold two_files. rewrite lines_add_line_data. apply merge_sets_empty_l. Qed.

Lemma two_files_lookup f :
  is_Some (lines two_files !! f) ↔ f = KStr "/x/a.py" ∨ f = KStr "/y/b.py".
Proof.
  rewrite lines_two_files, lookup_insert_is_Some. split.
  - intros [<- | [_ [X [<- _]%lookup_singleton_Some]]]; [by left | by right].
  - intros [-> | ->]; [by left |]. right. split; [done |].
    rewrite lookup_singleton_eq. by eexists.
Qed.

Lemma summary_without_collision_witness :
  iteration_order [KStr "/y/b.py"; KStr "/x/a.py"] (lines two_files)
  ∧ (∀ f, is_Some (lines two_files !! f) → ∃ p, f = KStr p)
  ∧ (∀ p q, is_Some (lines two_files !! KStr p) → is_Some (lines two_files !! KStr q) →
            os_path_basename p = os_path_basename q → p = q)
  ∧ ∃ summ, summary two_files false [KStr "/y/b.py"; KStr "/x/a.py"] = Ok summ
      ∧ summ !! KStr (os_path_basename "/x/a.py") = Some (size (ints [1; 2]))
      ∧ summ !! KStr (os_path_basename "/y/b.py") = Some (size (ints [5])).
Proof.
  assert (Hord : iteration_order [KStr "/y/b.py"; KStr "/x/a.py"] (lines two_files)).
  { split.
    - apply NoDup_cons. split; [| apply NoDup_singleton].
      by intros [=]%list_elem_of_singleton.
    - intros k. rewrite two_files_lookup, !elem_of_cons. split.
      + intros [-> | [-> | Hin]]; [by right | by left |].
        exfalso. exact (proj1 (elem_of_nil k) Hin).
      + intros [-> | ->]; [right; by left | by left]. }
  assert (Hstr : ∀ f, is_Some (lines two_files !! f) → ∃ p, f = KStr p).
  { intros f [-> | ->]%two_files_lookup; by eexists. }
  assert (Hinj : ∀ p q, is_Some (lines two_files !! KStr p) →
                   is_Some (lines two_files !! KStr q) →
                   os_path_basename p = os_path_basename q → p = q).
  { intros p q [[= ->] | [= ->]]%two_files_lookup [[= ->] | [= ->]]%two_files_lookup Hb;
      first [reflexivity | exfalso; vm_compute in Hb; discriminate Hb]. }
  split; [exact Hord |]. split; [exact Hstr |]. split; [exact Hinj |].
  destruct (summary_without_collision two_files _ Hord Hstr Hinj)
    as (summ & Hs & Hv & _).
  exists summ. split; [exact Hs |]. split; apply Hv; rewrite lines_two_files.
  - apply lookup_insert_eq.
  - rewrite lookup_insert_ne by done. apply lookup_singleton_eq.
Defined.

(** ** The collector *)

(** X15: whenever [write_file] returns for a store with a non-empty
    collector, [raw_data] shows the collector in the record, under the key
    'collector'; but reading the file never brings it back: [read_file]
    leaves the collector of the reading store as it is. *)
Theorem collector_written_not_read (fs fs' : filesystem) (self other : CoverageData)
    (fname c : string) :
  write_file fs self fname = Ok fs' →
  collector self = Some c →
  c ≠ EmptyString →
  ∃ data,
    raw_data fs' fname = Ok (VDict data)
    ∧ data !! KStr "collector" = Some (VStr c)
    ∧ collector (read_file fs' other fname) = collector other.
Proof.
  intros Hw Hc Hne. eexists.
  split; [by apply (raw_data_written _ _ _ _ Hw) |]. split.
  - rewrite file_data_collector, Hc. simpl. by destruct c.
  - unfold read_file. by destruct (_read_file _ fname).
Qed.

Lemma collector_written_not_read_witness :
  let self := mkCoverageData (Some "coverage v3") true "/d/.coverage" ∅ ∅ in
  ∃ fs',
    write_file empty_dir_disk self "/d/.coverage" = Ok fs'
    ∧ collector self = Some "coverage v3"
    ∧ "coverage v3" ≠ EmptyString
    ∧ ∃ data,
        raw_data fs' "/d/.coverage" = Ok (VDict data)
        ∧ data !! KStr "collector" = Some (VStr "coverage v3")
        ∧ collector (read_file fs' (fresh "/d/.coverage") "/d/.coverage") = None.
Proof.
  intros self.
  destruct (open_wb_write_returns empty_dir_disk "/d/.coverage"
              (pickle_dump (VDict (file_data self))) writable_empty_dir_disk)
    as [fs' Hw].
  assert (Hc : collector self = Some "coverage v3") by reflexivity.
  assert (Hne : "coverage v3" ≠ EmptyString) by discriminate.
  exists fs'. split; [exact Hw |]. split; [exact Hc |]. split; [exact Hne |].
  exact (collector_written_not_read empty_dir_disk fs' self (fresh "/d/.coverage")
           "/d/.coverage" "coverage v3" Hw Hc Hne).
Defined.

(** ** Construction *)

Lemma string_app_empty_r (s : string) : s ++ EmptyString = s.
Proof.
  induction s as [| a s IH]; [done |].
  change (String a (s ++ EmptyString) = String a s). by rewrite IH.
Qed.

(** X16: the name of the data file: an explicit non-empty [basename] wins over
    the environment, which wins over the default [".coverage"]; the suffix,
    if any, is appended before the path is made absolute; an empty string
    counts as no [basename] and as no [suffix].  The new store is empty and
    has file storage on. *)
Theorem init_file_name (abspath : string → string) (environ : gmap string string)
    (basename suffix coll : option string) :
  (∀ b, basename = Some b → b ≠ EmptyString →
     filename (init abspath environ basename suffix coll)
     = abspath (b ++ default EmptyString suffix))
  ∧ (basename = None →
     filename (init abspath environ basename suffix coll)
     = abspath (default ".coverage" (environ !! "COVERAGE_FILE")
                ++ default EmptyString suffix))
  ∧ init abspath environ (Some EmptyString) suffix coll
    = init abspath environ None suffix coll
  ∧ init abspath environ basename (Some EmptyString) coll
    = init abspath environ basename None coll
  ∧ executed_files (init abspath environ basename suffix coll) = []
  ∧ arcs (init abspath environ basename suffix coll) = ∅
  ∧ use_file (init abspath environ basename suffix coll) = true.
Proof.
  assert (Hsfx : ∀ name,
            (if str_truthy suffix then name ++ default EmptyString suffix else name)
            = name ++ default EmptyString suffix).
  { intros name. destruct suffix as [[| a s] |]; cbn [str_truthy default];
      by rewrite ?string_app_empty_r. }
  unfold init. split; [| split; [| split; [| split]]].
  - intros b -> Hb. simpl. rewrite Hsfx. by destruct b.
  - intros ->. simpl. by rewrite Hsfx.
  - done.
  - done.
  - done.
Qed.

(** ** Writing, then combining *)

Lemma string_prefix_refl (s : string) : String.prefix s s = true.
Proof.
  induction s as [| a s IH]; [done |]. simpl.
  by destruct (ascii_dec a a).
Qed.

(** X17: a store's own data file is one of the files combine merges.  When
    [write_file] has created the file of [self] at the store's path (a path
    that [os.path.split] and [os.path.join] take apart and put together
    again), a combine run from the emptied store on the new disk returns,
    and every line of [self] is executed in the store it returns. *)
Theorem write_then_combine (fs fs' : filesystem) (self : CoverageData) :
  write_file fs self (filename self) = Ok fs' →
  fs !! filename self = None →
  os_path_join (os_path_split (filename self)).1 (entry_name (filename self))
    = filename self →
  ∃ self',
    combine_parallel_data fs' (set_lines_arcs self ∅ ∅) = Ok self'
    ∧ ∀ f k, k ∈ executed_lines self f → k ∈ executed_lines self' f.
Proof.
  intros Hw Hnew Hjoin.
  assert (Hread : _read_file fs' (filename self) = (lines self, arcs self))
    by by apply (_read_file_written _ _ _ _ Hw).
  unfold write_file in Hw. apply open_wb_write_inv in Hw as (_ & _ & Hlist).
  destruct (Hlist Hnew) as (names & Hdir & Hin).
  rewrite combine_parallel_data_unfold. unfold os_listdir.
  change (listed_dir (set_lines_arcs self ∅ ∅)) with (parent_dir (filename self)).
  rewrite Hdir. simpl. eexists. split; [done |]. intros f k Hk.
  unfold executed_lines at 1. simpl.
  apply elem_of_merge_sets. right. apply elem_of_siblings_lines.
  exists (entry_name (filename self)). split; [done |].
  unfold contribution. unfold entry_name at 1. rewrite string_prefix_refl.
  by rewrite Hjoin, Hread.
Qed.

Lemma write_then_combine_witness :
  let self := add_line_data (fresh "/d/.coverage") {[ KStr "a.py" := ints [1; 2] ]} in
  ∃ fs',
    write_file empty_dir_disk self (filename self) = Ok fs'
    ∧ empty_dir_disk !! filename self = None
    ∧ os_path_join (os_path_split (filename self)).1 (entry_name (filename self))
      = filename self
    ∧ ∃ self',
        combine_parallel_data fs' (set_lines_arcs self ∅ ∅) = Ok self'
        ∧ ∀ f k, k ∈ executed_lines self f → k ∈ executed_lines self' f.
Proof.
  intros self.
  destruct (open_wb_write_returns empty_dir_disk "/d/.coverage"
              (pickle_dump (VDict (file_data self))) writable_empty_dir_disk)
    as [fs' Hw].
  assert (Hnew : empty_dir_disk !! filename self = None) by reflexivity.
  assert (Hjoin : os_path_join (os_path_split (filename self)).1
                    (entry_name (filename self)) = filename self) by reflexivity.
  exists fs'. split; [exact Hw |]. split; [exact Hnew |]. split; [exact Hjoin |].
  exact (write_then_combine empty_dir_disk fs' self Hw Hnew Hjoin).
Defined.
